(** * Dungeon of princesses, dragons and knights: a shallow embedding of main.cpp

    The C++ program keeps a vector of NPCs, lets them fight pairwise through
    a visitor, prints and saves them as text, and reads them back with the
    formatted extraction operators of the iostream library.  The development
    below follows the source class by class:

    - [NPC], [NPCType]: the entity record and its kind tag;
    - [BattleVisitor]: the three [visit] overloads and the observer line;
    - [IStream]: the part of [std::istream] the program relies on
      (whitespace skipping, extraction of tokens, integers and doubles,
      eofbit and failbit);
    - [NPCFactory]: [createNPC] and [loadFromStream];
    - [Dungeon]: [addNPC], [print], [saveToFile], [loadFromFile], [battle];
    - [Main]: the command loop.

    Text is modelled as [string] (a sequence of bytes), [int] values as [Z],
    [double] values as the kernel's binary64 floats, and the vector of owned
    NPCs as a [list NPC] addressed by index. *)

From Stdlib Require Import ZArith Ascii String PrimFloat FloatOps Uint63 Lia.
From stdpp Require Import base option list strings gmap.

Local Open Scope Z_scope.

(** ** Entities *)

Inductive NPCType := PRINCESS | DRAGON | KNIGHT.

#[global] Instance NPCType_eq_dec : EqDecision NPCType.
Proof. solve_decision. Defined.

(** The fields of [class NPC]; the dynamic type (the subclass) is the tag
    returned by [getType]. *)
Record NPC := mkNPC {
  getType : NPCType;
  getName : string;
  getX : Z;
  getY : Z;
  isAlive : bool
}.

(** [alive = false] is the only assignment to a field outside the constructor. *)
Definition markDead (n : NPC) : NPC :=
  {| getType := getType n; getName := getName n;
     getX := getX n; getY := getY n; isAlive := false |}.

(** Conversion of a non-negative [int] to [double]; exact, since every
    32-bit value is a binary64 number. *)
Definition double_of_magnitude (z : Z) : float :=
  PrimFloat.of_uint63 (Uint63.of_Z z).

(** [std::pow(d, 2)] for an [int] difference [d]: both arguments are promoted
    to [double]; the square of [d] is the square of its magnitude. *)
Definition pow2 (d : Z) : float :=
  let f := double_of_magnitude (Z.abs d) in PrimFloat.mul f f.

Definition distanceTo (a b : NPC) : float :=
  PrimFloat.sqrt (PrimFloat.add (pow2 (getX a - getX b)) (pow2 (getY a - getY b))).

(** The test [self.distanceTo( *other ) <= range ]. *)
Definition in_range (self other : NPC) (range : float) : bool :=
  PrimFloat.leb (distanceTo self other) range.

(** ** Observer *)

Definition endl : string := String (ascii_of_nat 10) EmptyString.

(** The line [ConsoleObserver::onKill] writes to [std::cout]. *)
Definition onKill (killer victim : NPC) : string :=
  getName killer +:+ " убил(а) " +:+ getName victim +:+ endl.

(** ** The battle visitor

    During a battle the vector is not resized, so a pointer to an NPC is its
    index.  The state threaded through the visitor is the vector together
    with what has been written to the console so far. *)

Record Arena := mkArena {
  arena_npcs : list NPC;
  arena_cout : list string
}.

Definition alive_at (i : nat) (st : Arena) : bool :=
  match arena_npcs st !! i with
  | Some n => isAlive n
  | None => false
  end.

(** The common body of [visit(Dragon&)] and [visit(Knight&)]: [self] is the
    visited NPC, [other] the pointer set by [setOther], [prey] the kind the
    inner [if] compares [other->getType()] with. *)
Definition strike (prey : NPCType) (range : float) (self other : nat)
    (st : Arena) : Arena :=
  match arena_npcs st !! self, arena_npcs st !! other with
  | Some s, Some o =>
      if isAlive o && in_range s o range then
        if decide (getType o = prey) then
          {| arena_npcs := alter markDead other (arena_npcs st);
             arena_cout := arena_cout st ++ [onKill s (markDead o)] |}
        else st
      else st
  | _, _ => st
  end.

Definition visit_Princess (range : float) (self other : nat) (st : Arena) : Arena := st.
Definition visit_Dragon := strike PRINCESS.
Definition visit_Knight := strike DRAGON.

(** [npcs[self]->accept(visitor)] after [visitor.setOther(npcs[other].get())]:
    double dispatch on the dynamic type of [npcs[self]]. *)
Definition accept (range : float) (self other : nat) (st : Arena) : Arena :=
  match arena_npcs st !! self with
  | Some s =>
      match getType s with
      | PRINCESS => visit_Princess range self other st
      | DRAGON => visit_Dragon range self other st
      | KNIGHT => visit_Knight range self other st
      end
  | None => st
  end.

(** The body of the inner loop for one pair: first [i] visits with [j] as the
    other, then [j] visits with [i] as the other. *)
Definition pair_step (range : float) (i j : nat) (st : Arena) : Arena :=
  accept range j i (accept range i j st).

(** [for (j = i + 1; j < size; ++j) { if (!npcs[j]->isAlive()) continue; ... }] *)
Fixpoint inner_loop (range : float) (i : nat) (js : list nat) (st : Arena) : Arena :=
  match js with
  | [] => st
  | j :: js' =>
      inner_loop range i js'
        (if alive_at j st then pair_step range i j st else st)
  end.

(** [for (i = 0; i < size; ++i) { if (!npcs[i]->isAlive()) continue; ... }] *)
Fixpoint outer_loop (range : float) (size : nat) (idx : list nat) (st : Arena) : Arena :=
  match idx with
  | [] => st
  | i :: idx' =>
      outer_loop range size idx'
        (if alive_at i st
         then inner_loop range i (seq (S i) (size - S i)) st
         else st)
  end.

(** The two nested loops of [Dungeon::battle], before the purge. *)
Definition battle_loops (range : float) (npcs : list NPC) : Arena :=
  outer_loop range (length npcs) (seq 0 (length npcs))
    {| arena_npcs := npcs; arena_cout := [] |}.

(** The erase/remove_if idiom: keep, in order, the NPCs that are alive. *)
Definition purge (npcs : list NPC) : list NPC :=
  List.filter isAlive npcs.

(** ** The input stream

    What the program uses of [std::istream]: the buffer still to be read and
    the two state bits the extraction operators set.  [good()] is "neither
    bit set"; the conversion to [bool] used by [if (in >> ...)] and by the
    [while] of the command loop is [!fail()]. *)

Record IStream := mkIStream {
  buf : string;
  eofbit : bool;
  failbit : bool
}.

Definition good (s : IStream) : bool := negb (eofbit s) && negb (failbit s).

(** A stream over the whole text of an opened file, or a stream whose file
    could not be opened. *)
Definition open_stream (content : option string) : IStream :=
  match content with
  | Some text => mkIStream text false false
  | None => mkIStream "" false true
  end.

(** [std::isspace] in the "C" locale: space, and \t \n \v \f \r. *)
Definition isspace (c : ascii) : bool :=
  let n := nat_of_ascii c in
  Nat.eqb n 32 || (Nat.leb 9 n && Nat.leb n 13).

Definition isdigit (c : ascii) : bool :=
  let n := nat_of_ascii c in
  Nat.leb 48 n && Nat.leb n 57.

Definition at_end (s : string) : bool :=
  match s with
  | EmptyString => true
  | String _ _ => false
  end.

Fixpoint skipws (s : string) : string :=
  match s with
  | EmptyString => EmptyString
  | String c s' => if isspace c then skipws s' else s
  end.

(** The sentry every formatted extraction starts with: it fails (setting
    failbit) on a stream that is not good, skips leading whitespace, and
    fails with eofbit and failbit when nothing is left. *)
Definition sentry (s : IStream) : bool * IStream :=
  if good s then
    match skipws (buf s) with
    | EmptyString => (false, mkIStream EmptyString true true)
    | rest => (true, mkIStream rest false false)
    end
  else (false, mkIStream (buf s) (eofbit s) true).

(** The longest prefix of characters satisfying [p], and what follows it. *)
Fixpoint span (p : ascii -> bool) (s : string) : string * string :=
  match s with
  | EmptyString => (EmptyString, EmptyString)
  | String c s' =>
      if p c then let (t, r) := span p s' in (String c t, r)
      else (EmptyString, s)
  end.

(** [in >> str] for a [std::string]: the result is the value stored in the
    variable, [None] when the variable is left as it was. *)
Definition extract_string (s : IStream) : option string * IStream :=
  let (ok, s1) := sentry s in
  if ok then
    let (tok, rest) := span (fun c => negb (isspace c)) (buf s1) in
    (Some tok, mkIStream rest (at_end rest) false)
  else (None, s1).

Definition INT_MIN : Z := -2147483648.
Definition INT_MAX : Z := 2147483647.

Definition digit_value (c : ascii) : Z := Z.of_nat (nat_of_ascii c) - 48.

(** Horner accumulation of a run of decimal digits. *)
Fixpoint digits_value (ds : string) (acc : Z) : Z :=
  match ds with
  | EmptyString => acc
  | String c ds' => digits_value ds' (acc * 10 + digit_value c)
  end.

(** An optional sign in front of a number. *)
Definition take_sign (s : string) : bool * string :=
  match s with
  | String c r =>
      if Ascii.eqb c "-" then (true, r)
      else if Ascii.eqb c "+" then (false, r)
      else (false, s)
  | EmptyString => (false, s)
  end.

(** [in >> n] for an [int] (decimal base): an optional sign and a run of
    digits.  With no digit the variable receives 0 and failbit is set; a
    value outside the range of [int] is clamped and failbit is set.  [None]
    means the variable is left as it was (the sentry failed). *)
Definition extract_int (s : IStream) : option Z * IStream :=
  let (ok, s1) := sentry s in
  if ok then
    let (neg, body) := take_sign (buf s1) in
    let (ds, rest) := span isdigit body in
    if at_end ds then (Some 0, mkIStream rest (at_end rest) true)
    else
      let v := if neg then - digits_value ds 0 else digits_value ds 0 in
      if v <? INT_MIN then (Some INT_MIN, mkIStream rest (at_end rest) true)
      else if INT_MAX <? v then (Some INT_MAX, mkIStream rest (at_end rest) true)
      else (Some v, mkIStream rest (at_end rest) false)
  else (None, s1).

(** *** Extraction of a [double]

    The number is [num / den] for two positive integers; the result is the
    binary64 number nearest to it, ties to even, as [strtod] computes it:
    the quotient is scaled to 53 bits (fewer in the subnormal range),
    rounded, and scaled back. *)
Definition nearest_double (num den : Z) : float :=
  let k0 := Z.log2 num - Z.log2 den - 53 in
  let k1 := if 2 ^ 53 * (den * 2 ^ Z.max k0 0) <=? num * 2 ^ Z.max (- k0) 0
            then k0 + 1 else k0 in
  let k := Z.max k1 (-1074) in
  let n' := num * 2 ^ Z.max (- k) 0 in
  let d' := den * 2 ^ Z.max k 0 in
  let q := n' / d' in
  let r := n' mod d' in
  let m := if 2 * r <? d' then q
           else if d' <? 2 * r then q + 1
           else if Z.even q then q else q + 1 in
  FloatOps.Z.ldexp (PrimFloat.of_uint63 (Uint63.of_Z m)) k.

Definition DBL_MAX : float := 0x1.fffffffffffffp1023%float.

Definition with_sign (neg : bool) (f : float) : float :=
  if neg then PrimFloat.opp f else f.

(** The value of the decimal field [ip.fp e ex], with [fp] the digits after
    the point and [ex] the signed exponent.  [None] stands for a value too
    large for a [double] (HUGE_VAL from [strtod]). *)
Definition decimal_value (ip fp : string) (ex : Z) : option float :=
  let d := digits_value (ip +:+ fp) 0 in
  let e := ex - Z.of_nat (String.length fp) in
  if d =? 0 then Some PrimFloat.zero
  else if 400 <? e then None
  else if e + Z.of_nat (String.length (ip +:+ fp)) <? -400 then Some PrimFloat.zero
  else
    let f := nearest_double (d * 10 ^ Z.max e 0) (10 ^ Z.max (- e) 0) in
    if PrimFloat.is_infinity f then None else Some f.

(** The fractional part of a floating-point field: a point and digits. *)
Definition take_fraction (s : string) : bool * string * string :=
  match s with
  | String c r =>
      if Ascii.eqb c "." then let (fp, r') := span isdigit r in (true, fp, r')
      else (false, EmptyString, s)
  | EmptyString => (false, EmptyString, s)
  end.

(** The exponent part, looked for only once the mantissa has a digit: the
    letter, an optional sign, digits.  The first component tells whether the
    letter was read. *)
Definition take_exponent (mantissa : bool) (s : string) : bool * bool * string * string :=
  match s with
  | String c r =>
      if mantissa && (Ascii.eqb c "e" || Ascii.eqb c "E") then
        let (neg, r1) := take_sign r in
        let (ep, r2) := span isdigit r1 in
        (true, neg, ep, r2)
      else (false, false, EmptyString, s)
  | EmptyString => (false, false, EmptyString, s)
  end.

(** [in >> d] for a [double]: the characters of a decimal floating-point
    field are accumulated and converted.  A field that is not a complete
    number stores 0 and sets failbit; a number too large stores the largest
    finite value with its sign and sets failbit. *)
Definition extract_double (s : IStream) : option float * IStream :=
  let (ok, s1) := sentry s in
  if ok then
    let (neg, r0) := take_sign (buf s1) in
    let (ip, r1) := span isdigit r0 in
    let '(dot, fp, r2) := take_fraction r1 in
    let mantissa := negb (at_end ip) || negb (at_end fp) in
    let '(sci, eneg, ep, rest) := take_exponent mantissa r2 in
    let eof := at_end rest in
    if negb mantissa || (sci && at_end ep) then
      (Some PrimFloat.zero, mkIStream rest eof true)
    else
      let ex := if eneg then - digits_value ep 0 else digits_value ep 0 in
      match decimal_value ip fp ex with
      | Some f => (Some (with_sign neg f), mkIStream rest eof false)
      | None => (Some (with_sign neg DBL_MAX), mkIStream rest eof true)
      end
  else (None, s1).

(** ** Writing integers

    [out << n] for an [int]: decimal digits, most significant first, with a
    minus sign in front of a negative value. *)

Definition digit_char (d : Z) : ascii := ascii_of_nat (48 + Z.to_nat d).

Fixpoint digits_of (fuel : nat) (n : Z) (acc : string) : string :=
  match fuel with
  | O => acc
  | S fuel' =>
      let acc' := String (digit_char (n mod 10)) acc in
      if n / 10 =? 0 then acc' else digits_of fuel' (n / 10) acc'
  end.

(** A non-negative [n] has at most [log2 n + 1] decimal digits. *)
Definition show_nonneg (n : Z) : string :=
  digits_of (S (Z.to_nat (Z.log2 n))) n EmptyString.

Definition show_int (n : Z) : string :=
  if n <? 0 then String "-" (show_nonneg (- n)) else show_nonneg n.

(** ** NPCFactory *)

(** Each subclass constructor forwards to [NPC(name, x, y)], which sets
    [alive(true)]. *)
Definition createNPC (type : NPCType) (name : string) (x y : Z) : NPC :=
  {| getType := type; getName := name; getX := x; getY := y; isAlive := true |}.

(** The test both [loadFromStream] and [addNPC] make on the coordinates. *)
Definition bad_coords (x y : Z) : bool :=
  (x <? 0) || (500 <? x) || (y <? 0) || (500 <? y).

(** The upper-case keywords of the save file. *)
Definition type_of_keyword (typeStr : string) : option NPCType :=
  if String.eqb typeStr "PRINCESS" then Some PRINCESS
  else if String.eqb typeStr "DRAGON" then Some DRAGON
  else if String.eqb typeStr "KNIGHT" then Some KNIGHT
  else None.

(** [NPCFactory::loadFromStream]: the four extractions are chained, the
    stream is tested once after them; [None] is the null pointer. *)
Definition loadFromStream (s : IStream) : option NPC * IStream :=
  let (typeStr, s1) := extract_string s in
  let (name, s2) := extract_string s1 in
  let (x, s3) := extract_int s2 in
  let (y, s4) := extract_int s3 in
  if failbit s4 then (None, s4)
  else
    match typeStr, name, x, y with
    | Some typeStr, Some name, Some x, Some y =>
        match type_of_keyword typeStr with
        | Some type =>
            if bad_coords x y then (None, s4)
            else (Some (createNPC type name x y), s4)
        | None => (None, s4)
        end
    | _, _, _, _ => (None, s4)
    end.

(** ** Dungeon

    The registry is the vector [npcs].  [battle] hands only the console
    observer to the visitor, so the file observer, which opens "log.txt" for
    appending when the dungeon is constructed, never writes to it. *)

Definition bad_coords_msg : string := "Неверные координаты!" +:+ endl.

(** [Dungeon::addNPC]: the new registry and what is written to the console. *)
Definition addNPC (type : NPCType) (name : string) (x y : Z) (npcs : list NPC)
    : list NPC * list string :=
  if bad_coords x y then (npcs, [bad_coords_msg])
  else (npcs ++ [createNPC type name x y], []).

Definition type_label (t : NPCType) : string :=
  match t with
  | PRINCESS => "Принцесса"
  | DRAGON => "Дракон"
  | KNIGHT => "Рыцарь"
  end.

Definition print_line (n : NPC) : string :=
  type_label (getType n) +:+ " " +:+ getName n +:+ " at (" +:+
  show_int (getX n) +:+ ", " +:+ show_int (getY n) +:+ ")" +:+ endl.

(** [Dungeon::print]: one console line per NPC that is alive. *)
Fixpoint print (npcs : list NPC) : list string :=
  match npcs with
  | [] => []
  | n :: rest =>
      if negb (isAlive n) then print rest
      else print_line n :: print rest
  end.

Definition type_keyword (t : NPCType) : string :=
  match t with
  | PRINCESS => "PRINCESS "
  | DRAGON => "DRAGON "
  | KNIGHT => "KNIGHT "
  end.

Definition save_line (n : NPC) : string :=
  type_keyword (getType n) +:+ getName n +:+ " " +:+
  show_int (getX n) +:+ " " +:+ show_int (getY n) +:+ endl.

(** The text [Dungeon::saveToFile] sends to its output stream. *)
Fixpoint save_text (npcs : list NPC) : string :=
  match npcs with
  | [] => EmptyString
  | n :: rest =>
      if negb (isAlive n) then save_text rest
      else save_line n +:+ save_text rest
  end.

(** The files the program can see: their contents by name, and whether a
    name can be opened for writing. *)
Record FileSystem := mkFS {
  fs_files : gmap string string;
  fs_writable : string -> bool
}.

(** [Dungeon::saveToFile]: opening the [ofstream] truncates the file; on a
    stream that failed to open, every insertion is a no-op. *)
Definition saveToFile (filename : string) (npcs : list NPC) (fs : FileSystem)
    : FileSystem :=
  if fs_writable fs filename
  then mkFS (<[filename := save_text npcs]> (fs_files fs)) (fs_writable fs)
  else fs.

(** The constructor of [FileObserver], run when the dungeon is constructed:
    "log.txt" is opened for appending, which creates it, empty, when it
    does not exist and can be written. *)
Definition open_log (fs : FileSystem) : FileSystem :=
  if fs_writable fs "log.txt" then
    match fs_files fs !! "log.txt" with
    | Some _ => fs
    | None => mkFS (<["log.txt" := EmptyString]> (fs_files fs)) (fs_writable fs)
    end
  else fs.

(** The [while ((npc = loadFromStream(file)))] loop.  Every NPC read
    consumes input, so the length of the text bounds the iterations; [None]
    is "bound exhausted". *)
Fixpoint load_loop (fuel : nat) (s : IStream) (npcs : list NPC) : option (list NPC) :=
  match fuel with
  | O => None
  | S fuel' =>
      match loadFromStream s with
      | (Some npc, s') => load_loop fuel' s' (npcs ++ [npc])
      | (None, _) => Some npcs
      end
  end.

(** [Dungeon::loadFromFile]: [npcs.clear()], then the loop. *)
Definition loadFromFile (filename : string) (fs : FileSystem) : option (list NPC) :=
  let file := open_stream (fs_files fs !! filename) in
  load_loop (S (String.length (buf file))) file [].

(** [Dungeon::battle]: the loops, then the purge; with the console output. *)
Definition battle (range : float) (npcs : list NPC) : list NPC * list string :=
  let st := battle_loops range npcs in
  (purge (arena_npcs st), arena_cout st).

(** ** The command loop

    [main] owns the dungeon and reads commands from [std::cin].  The locals
    [x], [y] and [range] are not initialised: when an extraction leaves its
    variable untouched, the value used is whatever the variable held, given
    here by an [Indeterminate] record; this happens only on a stream that
    has failed, hence at most in the last iteration of a run.  Insertions
    into [std::cout] are taken to succeed. *)

Record Indeterminate := mkIndeterminate {
  ind_x : Z;
  ind_y : Z;
  ind_range : float
}.

Record Process := mkProcess {
  cin : IStream;
  cout : list string;
  files : FileSystem;
  dungeon : list NPC
}.

Definition say (lines : list string) (st : Process) : Process :=
  mkProcess (cin st) (cout st ++ lines) (files st) (dungeon st).

Definition prompt : string := "Выберите команду: ".
Definition unknown_npc_msg : string := "Неизвестный NPC" +:+ endl.
Definition unknown_command_msg : string := "Неизвестная команда!" +:+ endl.

(** The lower-case kind words of the [add] command. *)
Definition type_of_word (type : string) : option NPCType :=
  if String.eqb type "princess" then Some PRINCESS
  else if String.eqb type "dragon" then Some DRAGON
  else if String.eqb type "knight" then Some KNIGHT
  else None.

(** The body of the [while] for a command word already read: the process
    after it and whether the loop is left by [break].  [None] only when the
    bound of [load_loop] is exhausted. *)
Definition command_body (g : Indeterminate) (command : string) (st : Process)
    : option (bool * Process) :=
  if String.eqb command "add" then
    let (type, c1) := extract_string (cin st) in
    let (name, c2) := extract_string c1 in
    let (x, c3) := extract_int c2 in
    let (y, c4) := extract_int c3 in
    match type_of_word (default EmptyString type) with
    | None =>
        Some (false, mkProcess c4 (cout st ++ [unknown_npc_msg]) (files st) (dungeon st))
    | Some npcType =>
        let (npcs, out) :=
          addNPC npcType (default EmptyString name)
            (default (ind_x g) x) (default (ind_y g) y) (dungeon st) in
        Some (false, mkProcess c4 (cout st ++ out) (files st) npcs)
    end
  else if String.eqb command "print" then
    Some (false, say (print (dungeon st)) st)
  else if String.eqb command "save" then
    let (filename, c1) := extract_string (cin st) in
    Some (false, mkProcess c1 (cout st)
                   (saveToFile (default EmptyString filename) (dungeon st) (files st))
                   (dungeon st))
  else if String.eqb command "load" then
    let (filename, c1) := extract_string (cin st) in
    match loadFromFile (default EmptyString filename) (files st) with
    | Some npcs => Some (false, mkProcess c1 (cout st) (files st) npcs)
    | None => None
    end
  else if String.eqb command "battle" then
    let (range, c1) := extract_double (cin st) in
    let (npcs, out) := battle (default (ind_range g) range) (dungeon st) in
    Some (false, mkProcess c1 (cout st ++ out) (files st) npcs)
  else if String.eqb command "exit" then
    Some (true, st)
  else
    Some (false, say [unknown_command_msg] st).

(** How the [while] was left: by the [break] of [exit], or because its
    condition [std::cin >> command] was false. *)
Inductive Leave := ByExit | ByFailedRead.

(** The [while] loop.  Every iteration that goes on has read a command word,
    so the length of the input bounds the iterations; [None] is "bound
    exhausted". *)
Fixpoint command_loop (fuel : nat) (g : Indeterminate) (st : Process)
    : option (Leave * Process) :=
  match fuel with
  | O => None
  | S fuel' =>
      let st1 := say [prompt] st in
      let (command, c1) := extract_string (cin st1) in
      let st2 := mkProcess c1 (cout st1) (files st1) (dungeon st1) in
      if failbit c1 then Some (ByFailedRead, st2)
      else
        match command_body g (default EmptyString command) st2 with
        | Some (true, st3) => Some (ByExit, st3)
        | Some (false, st3) => command_loop fuel' g st3
        | None => None
        end
  end.

(** [main]: a fresh dungeon, the loop, [return 0]. *)
Definition main (g : Indeterminate) (fs : FileSystem) (input : string)
    : option (Z * Leave * Process) :=
  match command_loop (S (String.length input)) g
          (mkProcess (mkIStream input false false) [] (open_log fs) []) with
  | Some (how, st) => Some (0, how, st)
  | None => None
  end.

(** ** Vocabulary of the specification *)

(** The rule table: a dragon kills a princess, a knight kills a dragon. *)
Definition kills (killer victim : NPCType) : bool :=
  match killer, victim with
  | DRAGON, PRINCESS => true
  | KNIGHT, DRAGON => true
  | _, _ => false
  end.

(** [frame a b]: [b] is a later state of the entity [a]: same kind, name
    and coordinates, and alive only if [a] was. *)
Definition frame (a b : NPC) : Prop :=
  getType a = getType b /\ getName a = getName b /\
  getX a = getX b /\ getY a = getY b /\
  (isAlive b = true -> isAlive a = true).

(** The registries the public operations of [Dungeon] can produce, starting
    from the empty one. *)
Inductive reachable : list NPC -> Prop :=
  | reach_empty : reachable []
  | reach_add type name x y npcs :
      reachable npcs -> reachable (fst (addNPC type name x y npcs))
  | reach_load filename fs npcs loaded :
      reachable npcs -> loadFromFile filename fs = Some loaded -> reachable loaded
  | reach_battle range npcs :
      reachable npcs -> reachable (fst (battle range npcs)).

Fixpoint string_forallb (p : ascii -> bool) (s : string) : bool :=
  match s with
  | EmptyString => true
  | String c s' => p c && string_forallb p s'
  end.

(** A name the extraction operator reads back as one token. *)
Definition no_whitespace (name : string) : bool :=
  string_forallb (fun c => negb (isspace c)) name.

Definition token_name (name : string) : Prop :=
  name <> EmptyString /\ no_whitespace name = true.

(** The keyword of a kind, without the space [saveToFile] writes after it. *)
Definition type_word (type : NPCType) : string :=
  match type with
  | PRINCESS => "PRINCESS"
  | DRAGON => "DRAGON"
  | KNIGHT => "KNIGHT"
  end.

(** What [load] can read back as the entity it was: a name that is one
    token, coordinates the factory accepts. *)
Definition savable (n : NPC) : Prop :=
  token_name (getName n) /\ bad_coords (getX n) (getY n) = false.

(** The text of one line of a save file, without the line end. *)
Definition line_text (type : NPCType) (name : string) (x y : Z) : string :=
  type_keyword type +:+ name +:+ " " +:+ show_int x +:+ " " +:+ show_int y.

(** The text made of the given pieces, in order. *)
Definition concat_text (pieces : list string) : string :=
  foldr String.append EmptyString pieces.

(** What is left to compare of a finished run: the exit code, how the loop
    was left, and the state of [std::cin]. *)
Definition outcome (run : option (Z * Leave * Process)) : option (Z * Leave * IStream) :=
  match run with
  | Some (code, how, st) => Some (code, how, cin st)
  | None => None
  end.

(** ** The scenarios of the specification *)

Definition at_origin (type : NPCType) (name : string) : NPC := createNPC type name 0 0.

Definition scenario_K_Dr_Pr : list NPC :=
  [at_origin KNIGHT "K"; at_origin DRAGON "Dr"; at_origin PRINCESS "Pr"].

Definition scenario_Dr_K_Pr : list NPC :=
  [at_origin DRAGON "Dr"; at_origin KNIGHT "K"; at_origin PRINCESS "Pr"].

(** The registry after [add dragon D 0 0] and [add princess P 0 0]. *)
Definition dragon_and_princess : list NPC :=
  fst (addNPC PRINCESS "P" 0 0 (fst (addNPC DRAGON "D" 0 0 []))).

Definition two_knights : list NPC :=
  [createNPC KNIGHT "A" 0 0; createNPC KNIGHT "B" 0 1].

Definition no_garbage : Indeterminate := mkIndeterminate 0 0 PrimFloat.zero.

Definition empty_fs : FileSystem := mkFS ∅ (fun _ => true).

(** No file, and no name that can be opened for writing. *)
Definition locked_fs : FileSystem := mkFS ∅ (fun _ => false).

Definition file_f (text : string) : FileSystem :=
  mkFS {[ "f"%string := text ]} (fun _ => true).

(** ** Vocabulary of the further properties *)

(** The number of entities of a vector that are dead. *)
Definition dead_count (npcs : list NPC) : nat :=
  length (List.filter (fun n => negb (isAlive n)) npcs).

(** Two entities are within range of each other and one of them kills the
    other by the rule table. *)
Definition clash (range : float) (a b : NPC) : bool :=
  in_range a b range &&
  (kills (getType a) (getType b) || kills (getType b) (getType a)).

(** Every entity of [npcs] that was alive and is dead in the arena has a
    killer: another entity of [npcs], alive in [npcs], within range of it,
    whose kind kills its kind. *)
Definition justified (range : float) (npcs : list NPC) (st : Arena) : Prop :=
  forall (j : nat) (b : NPC),
    npcs !! j = Some b -> isAlive b = true -> alive_at j st = false ->
    exists (i : nat) (a : NPC),
      npcs !! i = Some a /\ isAlive a = true /\ i <> j /\
      in_range a b range = true /\ kills (getType a) (getType b) = true.

(** A console line that reports a kill of the registry [npcs]: it names two
    distinct entities of [npcs], the second alive in [npcs] and within
    range of the first, whose kind kills its kind. *)
Definition reports_kill (range : float) (npcs : list NPC) (line : string) : Prop :=
  exists (i j : nat) (a b : NPC),
    npcs !! i = Some a /\ npcs !! j = Some b /\ i <> j /\
    line = onKill a b /\ isAlive b = true /\
    in_range a b range = true /\ kills (getType a) (getType b) = true.

(** The entities at [i] and [j], when both are alive in the arena, do not
    clash. *)
Definition settled (range : float) (st : Arena) (i j : nat) : Prop :=
  alive_at i st = true -> alive_at j st = true ->
  forall a b : NPC,
    arena_npcs st !! i = Some a -> arena_npcs st !! j = Some b ->
    clash range a b = false.

(** Text made of whitespace only, and such text when it is not empty. *)
Definition blank (ws : string) : Prop := string_forallb isspace ws = true.

Definition gap (ws : string) : Prop := ws <> EmptyString /\ blank ws.

(** Text from which [loadFromStream] returns the null pointer, whatever
    whitespace stands before it. *)
Definition unreadable (bad : string) : Prop :=
  forall ws, blank ws ->
    fst (loadFromStream (mkIStream (ws +:+ bad) false false)) = None.

(** A character that can start neither a number nor whitespace: not a
    digit, a sign, a point or a space. *)
Definition not_numeric (c : ascii) : bool :=
  negb (isdigit c || isspace c || Ascii.eqb c "-" || Ascii.eqb c "+" ||
        Ascii.eqb c ".").

(** The kind word of the [add] command. *)
Definition type_name (type : NPCType) : string :=
  match type with
  | PRINCESS => "princess"
  | DRAGON => "dragon"
  | KNIGHT => "knight"
  end.

(** * Properties *)

(** ** The battle *)

Lemma in_range_sym a b range : in_range a b range = in_range b a range.
Proof.
  unfold in_range, distanceTo, pow2.
  replace (Z.abs (getX b - getX a)) with (Z.abs (getX a - getX b)) by lia.
  replace (Z.abs (getY b - getY a)) with (Z.abs (getY a - getY b)) by lia.
  reflexivity.
Qed.

Lemma frame_refl a : frame a a.
Proof. unfold frame; tauto. Qed.

Lemma frame_trans a b c : frame a b -> frame b c -> frame a c.
Proof. unfold frame; intuition congruence. Qed.

Lemma frame_markDead a : frame a (markDead a).
Proof. unfold frame; simpl; intuition discriminate. Qed.

Lemma Forall2_frame_refl (l : list NPC) : Forall2 frame l l.
Proof. induction l; constructor; auto using frame_refl. Qed.

Lemma Forall2_frame_trans (l1 l2 l3 : list NPC) :
  Forall2 frame l1 l2 -> Forall2 frame l2 l3 -> Forall2 frame l1 l3.
Proof.
  intros H; revert l3.
  induction H; intros l3 H3; inversion H3; subst; constructor; eauto using frame_trans.
Qed.

(** A strike either leaves the arena as it is or marks [other] dead and
    writes one line. *)
Lemma strike_cases prey range self other st :
  strike prey range self other st = st \/
  exists s o,
    arena_npcs st !! self = Some s /\ arena_npcs st !! other = Some o /\
    isAlive o = true /\ in_range s o range = true /\ getType o = prey /\
    strike prey range self other st =
      mkArena (alter markDead other (arena_npcs st))
              (arena_cout st ++ [onKill s (markDead o)]).
Proof.
  unfold strike.
  destruct (arena_npcs st !! self) as [s|] eqn:Hs; [|by left].
  destruct (arena_npcs st !! other) as [o|] eqn:Ho; [|by left].
  destruct (isAlive o) eqn:Ha; simpl; [|by left].
  destruct (in_range s o range) eqn:Hr; [|by left].
  destruct (decide (getType o = prey)) as [Hp|]; [|by left].
  right. exists s, o. auto 10.
Qed.

(** What [accept] can do, with the kinds involved spelled out by [kills]. *)
Lemma accept_cases range self other st :
  accept range self other st = st \/
  exists s o,
    arena_npcs st !! self = Some s /\ arena_npcs st !! other = Some o /\
    isAlive o = true /\ in_range s o range = true /\
    kills (getType s) (getType o) = true /\
    accept range self other st =
      mkArena (alter markDead other (arena_npcs st))
              (arena_cout st ++ [onKill s (markDead o)]).
Proof.
  unfold accept.
  destruct (arena_npcs st !! self) as [s|] eqn:Hs; [|by left].
  destruct (getType s) eqn:Ht.
  - by left.
  - destruct (strike_cases PRINCESS range self other st)
      as [|(s' & o & Hs' & Ho & Ha & Hr & Hp & Heq)]; [by left|].
    right. exists s, o. rewrite Hs in Hs'. injection Hs' as <-.
    rewrite Ht, Hp. auto 10.
  - destruct (strike_cases DRAGON range self other st)
      as [|(s' & o & Hs' & Ho & Ha & Hr & Hp & Heq)]; [by left|].
    right. exists s, o. rewrite Hs in Hs'. injection Hs' as <-.
    rewrite Ht, Hp. auto 10.
Qed.

Lemma accept_kills range self other st s o :
  arena_npcs st !! self = Some s -> arena_npcs st !! other = Some o ->
  isAlive o = true -> in_range s o range = true ->
  kills (getType s) (getType o) = true ->
  accept range self other st =
    mkArena (alter markDead other (arena_npcs st))
            (arena_cout st ++ [onKill s (markDead o)]).
Proof.
  intros Hs Ho Ha Hr. unfold accept, visit_Dragon, visit_Knight, strike.
  rewrite Hs, Ho, Ha, Hr; simpl.
  destruct (getType s), (getType o); simpl; intros Hk; try discriminate; reflexivity.
Qed.

Lemma alter_markDead_frame (l : list NPC) i : Forall2 frame l (alter markDead i l).
Proof.
  apply Forall2_alter_r; [apply Forall2_frame_refl|].
  intros x y _ _ H. eapply frame_trans; [exact H|apply frame_markDead].
Qed.

Lemma accept_frame range self other st :
  Forall2 frame (arena_npcs st) (arena_npcs (accept range self other st)).
Proof.
  destruct (accept_cases range self other st) as [->|(s & o & _ & _ & _ & _ & _ & ->)].
  - apply Forall2_frame_refl.
  - apply alter_markDead_frame.
Qed.

Lemma pair_step_frame range i j st :
  Forall2 frame (arena_npcs st) (arena_npcs (pair_step range i j st)).
Proof.
  unfold pair_step. eapply Forall2_frame_trans; apply accept_frame.
Qed.

Lemma inner_loop_frame range i js st :
  Forall2 frame (arena_npcs st) (arena_npcs (inner_loop range i js st)).
Proof.
  revert st. induction js as [|j js IH]; intros st; simpl.
  - apply Forall2_frame_refl.
  - eapply Forall2_frame_trans; [|apply IH].
    destruct (alive_at j st); [apply pair_step_frame|apply Forall2_frame_refl].
Qed.

Lemma outer_loop_frame range size idx st :
  Forall2 frame (arena_npcs st) (arena_npcs (outer_loop range size idx st)).
Proof.
  revert st. induction idx as [|i idx IH]; intros st; simpl.
  - apply Forall2_frame_refl.
  - eapply Forall2_frame_trans; [|apply IH].
    destruct (alive_at i st); [apply inner_loop_frame|apply Forall2_frame_refl].
Qed.

Lemma battle_loops_frame range npcs :
  Forall2 frame npcs (arena_npcs (battle_loops range npcs)).
Proof. apply (outer_loop_frame range _ _ (mkArena npcs [])). Qed.

(** Survivors of the purge are the entities they were before the loops. *)
Lemma purge_frame_sublist (before after : list NPC) :
  Forall2 frame before after -> sublist (purge after) before.
Proof.
  induction 1 as [|a b l k Hf _ IH]; simpl; [constructor|].
  destruct (isAlive b) eqn:Hb.
  - replace b with a; [by apply sublist_skip|].
    destruct Hf as (Ht & Hn & Hx & Hy & Ha).
    destruct a, b; simpl in *; rewrite (Ha Hb); congruence.
  - by apply sublist_cons.
Qed.

Lemma purge_alive (npcs : list NPC) :
  Forall (fun n => isAlive n = true) (purge npcs).
Proof.
  induction npcs as [|n l IH]; simpl; [constructor|].
  destruct (isAlive n) eqn:Hn; [constructor|]; auto.
Qed.

Lemma purge_all_alive (npcs : list NPC) :
  Forall (fun n => isAlive n = true) npcs -> purge npcs = npcs.
Proof.
  induction 1 as [|n l Hn _ IH]; simpl; [done|]. by rewrite Hn, IH.
Qed.

(** A direction of a pair whose kinds are not in the rule table, or whose
    entities are out of range, changes nothing. *)
Lemma accept_noop range self other st s o :
  arena_npcs st !! self = Some s -> arena_npcs st !! other = Some o ->
  (in_range s o range = true -> kills (getType s) (getType o) = false) ->
  accept range self other st = st.
Proof.
  intros Hs Ho Hno.
  destruct (accept_cases range self other st)
    as [|(s' & o' & Hs' & Ho' & _ & Hr & Hk & _)]; [done|].
  rewrite Hs in Hs'; rewrite Ho in Ho'.
  injection Hs' as <-; injection Ho' as <-.
  rewrite (Hno Hr) in Hk. discriminate.
Qed.

Lemma pair_step_noop range i j st a b :
  arena_npcs st !! i = Some a -> arena_npcs st !! j = Some b ->
  (in_range a b range = true ->
   kills (getType a) (getType b) = false /\ kills (getType b) (getType a) = false) ->
  pair_step range i j st = st.
Proof.
  intros Ha Hb Hno. unfold pair_step.
  rewrite (accept_noop range i j st a b Ha Hb); [|intros Hr; apply Hno, Hr].
  apply (accept_noop range j i st b a Hb Ha).
  intros Hr. rewrite in_range_sym in Hr. apply Hno, Hr.
Qed.

Section Quiet.
Variable range : float.
Variable npcs : list NPC.

(** No pair of the registry that is within range matches the rule table,
    in either direction. *)
Hypothesis quiet : forall (i j : nat) (a b : NPC),
  (i < j)%nat -> npcs !! i = Some a -> npcs !! j = Some b ->
  in_range a b range = true ->
  kills (getType a) (getType b) = false /\ kills (getType b) (getType a) = false.

Lemma inner_loop_quiet i js out :
  Forall (fun j => (i < j)%nat) js ->
  inner_loop range i js (mkArena npcs out) = mkArena npcs out.
Proof.
  induction 1 as [|j js Hij _ IH]; simpl; [done|].
  unfold alive_at; simpl.
  destruct (npcs !! j) as [b|] eqn:Hb; [|exact IH].
  destruct (isAlive b); [|exact IH].
  destruct (npcs !! i) as [a|] eqn:Ha.
  - rewrite (pair_step_noop range i j (mkArena npcs out) a b Ha Hb); eauto.
  - unfold pair_step.
    destruct (accept_cases range i j (mkArena npcs out))
      as [->|(s & o & Hs & _)]; [|simpl in Hs; congruence].
    destruct (accept_cases range j i (mkArena npcs out))
      as [->|(s & o & _ & Ho & _)]; [exact IH|simpl in Ho; congruence].
Qed.

Lemma outer_loop_quiet size idx out :
  outer_loop range size idx (mkArena npcs out) = mkArena npcs out.
Proof.
  induction idx as [|i idx IH]; simpl; [done|].
  destruct (alive_at i (mkArena npcs out)); [|exact IH].
  rewrite inner_loop_quiet; [exact IH|].
  apply Forall_forall. intros j Hj. apply elem_of_seq in Hj. lia.
Qed.

Lemma battle_loops_quiet : battle_loops range npcs = mkArena npcs [].
Proof. apply outer_loop_quiet. Qed.
End Quiet.

(** ** Text and streams *)

#[local] Arguments isspace : simpl never.
#[local] Arguments isdigit : simpl never.
#[local] Arguments digit_char : simpl never.
#[local] Arguments digit_value : simpl never.

Lemma string_forallb_cons p c s :
  string_forallb p (String c s) = p c && string_forallb p s.
Proof. reflexivity. Qed.

Lemma append_cons c (s t : string) : String c s +:+ t = String c (s +:+ t).
Proof. reflexivity. Qed.

Lemma append_nil_l (s : string) : EmptyString +:+ s = s.
Proof. reflexivity. Qed.

Lemma append_nil_r (s : string) : s +:+ EmptyString = s.
Proof. induction s as [|c s IH]; [done|]. by rewrite append_cons, IH. Qed.

Lemma append_assoc (a b c : string) : (a +:+ b) +:+ c = a +:+ (b +:+ c).
Proof. induction a as [|x a IH]; [done|]. by rewrite !append_cons, IH. Qed.

Lemma length_append (a b : string) :
  String.length (a +:+ b) = (String.length a + String.length b)%nat.
Proof. induction a as [|x a IH]; [done|]. rewrite append_cons. simpl. by rewrite IH. Qed.

Lemma skipws_length (s : string) : (String.length (skipws s) <= String.length s)%nat.
Proof. induction s as [|c s IH]; simpl; [lia|]. destruct (isspace c); simpl; lia. Qed.

Lemma skipws_app (ws s : string) :
  string_forallb isspace ws = true -> skipws (ws +:+ s) = skipws s.
Proof.
  induction ws as [|c ws IH]; [done|].
  intros [Hc Hws]%andb_prop. rewrite append_cons. simpl. rewrite Hc. auto.
Qed.

Lemma skipws_stop c s : isspace c = false -> skipws (String c s) = String c s.
Proof. simpl. by intros ->. Qed.

Lemma span_length p s :
  (String.length (fst (span p s)) + String.length (snd (span p s)))%nat = String.length s.
Proof.
  induction s as [|c s IH]; simpl; [done|].
  destruct (p c); simpl; [|done]. destruct (span p s); simpl in *. lia.
Qed.

Lemma span_rest_length p s : (String.length (snd (span p s)) <= String.length s)%nat.
Proof. pose proof (span_length p s). lia. Qed.

(** A run of characters satisfying [p] is read whole when what follows is
    the end of the text or a character that does not satisfy [p]. *)
Definition stops (p : ascii -> bool) (rest : string) : Prop :=
  match rest with
  | EmptyString => True
  | String c _ => p c = false
  end.

Lemma span_app p t rest :
  string_forallb p t = true -> stops p rest -> span p (t +:+ rest) = (t, rest).
Proof.
  intros Ht Hrest. induction t as [|c t IH].
  - rewrite append_nil_l. destruct rest as [|c r]; simpl in *; [done|]. by rewrite Hrest.
  - apply andb_prop in Ht as [Hc Ht]. rewrite append_cons. simpl. by rewrite Hc, (IH Ht).
Qed.

Lemma sentry_length s :
  (String.length (buf (snd (sentry s))) <= String.length (buf s))%nat.
Proof.
  unfold sentry. destruct (good s); simpl; [|lia].
  pose proof (skipws_length (buf s)).
  destruct (skipws (buf s)); simpl in *; lia.
Qed.

(** After a successful sentry the buffer starts with a character that is
    not whitespace. *)
Lemma sentry_ok s s1 :
  sentry s = (true, s1) ->
  exists c r, buf s1 = String c r /\ isspace c = false /\
    (String.length (String c r) <= String.length (buf s))%nat.
Proof.
  unfold sentry. destruct (good s); [|discriminate].
  pose proof (skipws_length (buf s)) as Hlen.
  destruct (skipws (buf s)) as [|c r] eqn:Hskip; [discriminate|].
  intros [= <-]. exists c, r. simpl. split; [done|]. split; [|simpl in Hlen; lia].
  clear Hlen. induction (buf s) as [|c' s' IH]; simpl in Hskip; [discriminate|].
  destruct (isspace c') eqn:Hc'; [auto|]. by injection Hskip as -> ->.
Qed.

Lemma sentry_fail s s1 : sentry s = (false, s1) -> failbit s1 = true.
Proof.
  unfold sentry. destruct (good s); [|by intros [= <-]].
  destruct (skipws (buf s)); [by intros [= <-]|discriminate].
Qed.

Lemma extract_string_length s :
  (String.length (buf (snd (extract_string s))) <= String.length (buf s))%nat.
Proof.
  unfold extract_string. pose proof (sentry_length s) as Hs.
  destruct (sentry s) as [[] s1]; simpl in *; [|done].
  pose proof (span_rest_length (fun c => negb (isspace c)) (buf s1)).
  destruct (span _ (buf s1)); simpl in *. lia.
Qed.

(** A successful token extraction consumes at least one character. *)
Lemma extract_string_consumes s :
  failbit (snd (extract_string s)) = false ->
  (String.length (buf (snd (extract_string s))) < String.length (buf s))%nat.
Proof.
  unfold extract_string.
  destruct (sentry s) as [[] s1] eqn:Hsentry; simpl.
  - intros _. apply sentry_ok in Hsentry as (c & r & Hbuf & Hc & Hlen).
    rewrite Hbuf. simpl. rewrite Hc. simpl.
    pose proof (span_rest_length (fun c => negb (isspace c)) r).
    destruct (span _ r); simpl in *. lia.
  - apply sentry_fail in Hsentry. congruence.
Qed.

Lemma take_sign_length s : (String.length (snd (take_sign s)) <= String.length s)%nat.
Proof.
  destruct s as [|c r]; simpl; [lia|].
  destruct (Ascii.eqb c "-"); simpl; [lia|].
  destruct (Ascii.eqb c "+"); simpl; lia.
Qed.

Lemma extract_int_length s :
  (String.length (buf (snd (extract_int s))) <= String.length (buf s))%nat.
Proof.
  unfold extract_int. pose proof (sentry_length s) as Hs.
  destruct (sentry s) as [[] s1]; simpl in *; [|done].
  pose proof (take_sign_length (buf s1)).
  destruct (take_sign (buf s1)) as [neg body]; simpl in *.
  pose proof (span_rest_length isdigit body).
  destruct (span isdigit body) as [ds rest]; simpl in *.
  repeat (match goal with |- context [if ?b then _ else _] => destruct b end);
    simpl; lia.
Qed.

Lemma extract_double_length s :
  (String.length (buf (snd (extract_double s))) <= String.length (buf s))%nat.
Proof.
  unfold extract_double. pose proof (sentry_length s) as Hs.
  destruct (sentry s) as [[] s1]; simpl in *; [|done].
  pose proof (take_sign_length (buf s1)).
  destruct (take_sign (buf s1)) as [neg r0]; simpl in *.
  pose proof (span_rest_length isdigit r0).
  destruct (span isdigit r0) as [ip r1]; simpl in *.
  assert (String.length (snd (take_fraction r1)) <= String.length r1)%nat as Hf.
  { unfold take_fraction. destruct r1 as [|c r]; simpl; [lia|].
    destruct (Ascii.eqb c "."); simpl; [|lia].
    pose proof (span_rest_length isdigit r). destruct (span isdigit r); simpl in *; lia. }
  destruct (take_fraction r1) as [[dot fp] r2]; simpl in *.
  set (mantissa := negb (at_end ip) || negb (at_end fp)).
  assert (String.length (snd (take_exponent mantissa r2)) <= String.length r2)%nat as He.
  { unfold take_exponent. destruct r2 as [|c r]; simpl; [lia|].
    destruct (mantissa && _); simpl; [|lia].
    pose proof (take_sign_length r). destruct (take_sign r) as [n r']; simpl in *.
    pose proof (span_rest_length isdigit r'). destruct (span isdigit r'); simpl in *; lia. }
  destruct (take_exponent mantissa r2) as [[[sci eneg] ep] rest]; simpl in *.
  destruct (negb mantissa || _); simpl; [lia|].
  destruct (decimal_value _ _ _); simpl; lia.
Qed.

(** ** Decimal text of integers *)

Lemma digit_char_spec d :
  0 <= d < 10 ->
  isdigit (digit_char d) = true /\ digit_value (digit_char d) = d /\
  isspace (digit_char d) = false /\
  Ascii.eqb (digit_char d) "-" = false /\ Ascii.eqb (digit_char d) "+" = false.
Proof.
  intros Hd.
  assert (d = 0 \/ d = 1 \/ d = 2 \/ d = 3 \/ d = 4 \/ d = 5 \/ d = 6 \/ d = 7 \/
          d = 8 \/ d = 9) as Hcases by lia.
  repeat (destruct Hcases as [->|Hcases]); try subst d; vm_compute; auto.
Qed.

Lemma digits_of_app fuel n acc :
  digits_of fuel n acc = digits_of fuel n EmptyString +:+ acc.
Proof.
  revert n acc. induction fuel as [|fuel IH]; intros n acc; simpl; [done|].
  destruct (n / 10 =? 0); [done|].
  rewrite IH. rewrite (IH _ (String _ EmptyString)).
  by rewrite append_assoc.
Qed.

Lemma digits_of_digits fuel n acc :
  0 <= n -> string_forallb isdigit acc = true ->
  string_forallb isdigit (digits_of fuel n acc) = true.
Proof.
  revert n acc. induction fuel as [|fuel IH]; intros n acc Hn Hacc; simpl; [done|].
  assert (string_forallb isdigit (String (digit_char (n mod 10)) acc) = true) as Hacc'.
  { rewrite string_forallb_cons, Hacc.
    destruct (digit_char_spec (n mod 10)) as [-> _]; [|done].
    apply Z.mod_pos_bound; lia. }
  destruct (n / 10 =? 0); [done|]. apply IH; [|done].
  apply Z.div_pos; lia.
Qed.

Lemma digits_of_value fuel n acc :
  0 <= n < 10 ^ Z.of_nat fuel ->
  digits_value (digits_of fuel n acc) 0 = digits_value acc n.
Proof.
  revert n acc. induction fuel as [|fuel IH]; intros n acc Hn.
  - simpl in *. by replace n with 0 by lia.
  - simpl digits_of.
    assert (0 <= n mod 10 < 10) as Hmod by (apply Z.mod_pos_bound; lia).
    destruct (digit_char_spec (n mod 10) Hmod) as (_ & Hv & _).
    pose proof (Z.div_mod n 10 ltac:(lia)) as Hdm.
    destruct (n / 10 =? 0) eqn:Hq.
    + apply Z.eqb_eq in Hq. simpl. rewrite Hv. f_equal. lia.
    + rewrite IH.
      * simpl. rewrite Hv. f_equal. lia.
      * split; [apply Z.div_pos; lia|].
        apply Z.div_lt_upper_bound; [lia|].
        rewrite Nat2Z.inj_succ, Z.pow_succ_r in Hn; lia.
Qed.

Lemma show_nonneg_fuel n : 0 <= n -> n < 10 ^ Z.of_nat (S (Z.to_nat (Z.log2 n))).
Proof.
  intros Hn. rewrite Nat2Z.inj_succ, Z2Nat.id by apply Z.log2_nonneg.
  destruct (Z.eq_dec n 0) as [->|Hz]; [done|].
  pose proof (Z.log2_spec n ltac:(lia)) as [_ Hlt].
  eapply Z.lt_le_trans; [exact Hlt|].
  apply Z.pow_le_mono_l. pose proof (Z.log2_nonneg n). lia.
Qed.

Lemma show_nonneg_value n : 0 <= n -> digits_value (show_nonneg n) 0 = n.
Proof.
  intros Hn. unfold show_nonneg. rewrite digits_of_value; [done|].
  split; [done|]. by apply show_nonneg_fuel.
Qed.

Lemma show_nonneg_digits n : 0 <= n -> string_forallb isdigit (show_nonneg n) = true.
Proof. intros Hn. by apply digits_of_digits. Qed.

Lemma digits_of_S fuel n acc :
  digits_of (S fuel) n acc =
    if n / 10 =? 0 then String (digit_char (n mod 10)) acc
    else digits_of fuel (n / 10) (String (digit_char (n mod 10)) acc).
Proof. reflexivity. Qed.

Lemma digits_of_nonempty fuel n acc : digits_of (S fuel) n acc <> EmptyString.
Proof.
  rewrite digits_of_S. destruct (n / 10 =? 0); [done|].
  rewrite digits_of_app. by destruct (digits_of fuel (n / 10) EmptyString).
Qed.

(** The text of a non-negative number starts with a digit. *)
Lemma show_nonneg_head n :
  0 <= n -> exists c r, show_nonneg n = String c r /\ isdigit c = true.
Proof.
  intros Hn. pose proof (show_nonneg_digits n Hn) as Hd.
  pose proof (digits_of_nonempty (Z.to_nat (Z.log2 n)) n EmptyString) as Hne.
  fold (show_nonneg n) in Hne.
  destruct (show_nonneg n) as [|c r]; [done|].
  exists c, r. split; [done|].
  rewrite string_forallb_cons in Hd. by apply andb_prop in Hd as [-> _].
Qed.

Lemma isdigit_chars c :
  isdigit c = true ->
  isspace c = false /\ Ascii.eqb c "-" = false /\ Ascii.eqb c "+" = false.
Proof.
  destruct c as [[] [] [] [] [] [] [] []]; vm_compute; intros H;
    try discriminate H; auto.
Qed.

(** ** Extraction against the text the program writes *)

Lemma sentry_sticky s :
  failbit s = true -> sentry s = (false, mkIStream (buf s) (eofbit s) true).
Proof. unfold sentry, good. intros ->. by rewrite andb_false_r. Qed.

Lemma extract_string_sticky s :
  failbit s = true -> failbit (snd (extract_string s)) = true.
Proof. intros H. unfold extract_string. by rewrite sentry_sticky. Qed.

Lemma extract_int_sticky s :
  failbit s = true -> failbit (snd (extract_int s)) = true.
Proof. intros H. unfold extract_int. by rewrite sentry_sticky. Qed.

Lemma extract_double_sticky s :
  failbit s = true -> failbit (snd (extract_double s)) = true.
Proof. intros H. unfold extract_double. by rewrite sentry_sticky. Qed.

Lemma not_failed_before (s s' : IStream) :
  (failbit s = true -> failbit s' = true) -> failbit s' = false -> failbit s = false.
Proof. destruct (failbit s); [|done]. intros H H'. rewrite H in H'; done. Qed.

(** The buffer after [loadFromStream], and the stream tested by its [if]. *)
Lemma loadFromStream_stream s :
  snd (loadFromStream s) =
    snd (extract_int (snd (extract_int (snd (extract_string (snd (extract_string s))))))).
Proof.
  unfold loadFromStream.
  destruct (extract_string s) as [typeStr s1]; simpl.
  destruct (extract_string s1) as [name s2]; simpl.
  destruct (extract_int s2) as [x s3]; simpl.
  destruct (extract_int s3) as [y s4]; simpl.
  destruct (failbit s4); [done|].
  destruct typeStr, name, x, y; try done.
  destruct (type_of_keyword _); [|done]. by destruct (bad_coords _ _).
Qed.

Lemma loadFromStream_some s npc s' :
  loadFromStream s = (Some npc, s') ->
  failbit s' = false /\ isAlive npc = true /\
  bad_coords (getX npc) (getY npc) = false.
Proof.
  unfold loadFromStream.
  destruct (extract_string s) as [typeStr s1].
  destruct (extract_string s1) as [name s2].
  destruct (extract_int s2) as [x s3].
  destruct (extract_int s3) as [y s4].
  destruct (failbit s4) eqn:Hf; [discriminate|].
  destruct typeStr, name, x, y; try discriminate.
  destruct (type_of_keyword _); [|discriminate].
  destruct (bad_coords _ _) eqn:Hb; [discriminate|].
  intros [= <- <-]. auto.
Qed.

(** A successful [loadFromStream] consumes input. *)
Lemma loadFromStream_consumes s npc s' :
  loadFromStream s = (Some npc, s') ->
  (String.length (buf s') < String.length (buf s))%nat.
Proof.
  intros H. pose proof (loadFromStream_some _ _ _ H) as (Hf & _).
  pose proof (loadFromStream_stream s) as Hs. rewrite H in Hs. simpl in Hs. subst s'.
  set (s1 := snd (extract_string s)) in *.
  set (s2 := snd (extract_string s1)) in *.
  set (s3 := snd (extract_int s2)) in *.
  pose proof (not_failed_before _ _ (extract_int_sticky s3) Hf) as H3.
  pose proof (not_failed_before _ _ (extract_int_sticky s2) H3) as H2.
  pose proof (not_failed_before _ _ (extract_string_sticky s1) H2) as H1.
  pose proof (extract_string_consumes s H1).
  pose proof (extract_string_length s1).
  pose proof (extract_int_length s2).
  pose proof (extract_int_length s3).
  fold s1 in H0. fold s2 in H4. fold s3 in H5. lia.
Qed.

(** The loop of [loadFromFile] ends within the bound given by the text. *)
Lemma load_loop_total fuel s npcs :
  (String.length (buf s) < fuel)%nat -> is_Some (load_loop fuel s npcs).
Proof.
  revert s npcs. induction fuel as [|fuel IH]; intros s npcs Hlen; [lia|].
  simpl. destruct (loadFromStream s) as [[npc|] s'] eqn:Hload; [|done].
  apply IH. apply loadFromStream_consumes in Hload. lia.
Qed.

Lemma loadFromFile_total filename fs : is_Some (loadFromFile filename fs).
Proof. unfold loadFromFile. apply load_loop_total. lia. Qed.

(** Projections of a stream given by its fields. *)
Ltac stream_fields := cbn [good buf eofbit failbit negb andb].

Lemma token_name_head name :
  token_name name ->
  exists c r, name = String c r /\ isspace c = false.
Proof.
  intros [Hne Hws]. destruct name as [|c r]; [done|].
  exists c, r. split; [done|].
  unfold no_whitespace in Hws. rewrite string_forallb_cons in Hws.
  apply andb_prop in Hws as [Hc _]. by destruct (isspace c).
Qed.

(** [in >> str] reads back a token written after any whitespace, when the
    text goes on with whitespace or ends. *)
Lemma extract_string_token ws tok rest :
  string_forallb isspace ws = true -> token_name tok ->
  stops (fun c => negb (isspace c)) rest ->
  extract_string (mkIStream (ws +:+ tok +:+ rest) false false) =
    (Some tok, mkIStream rest (at_end rest) false).
Proof.
  intros Hws Htok Hrest.
  destruct (token_name_head tok Htok) as (c & r & Heq & Hc).
  unfold extract_string, sentry. stream_fields.
  rewrite (skipws_app ws _ Hws). rewrite Heq at 1. rewrite append_cons, (skipws_stop c _ Hc).
  rewrite <- append_cons, <- Heq. stream_fields.
  rewrite span_app; [done| apply Htok | done].
Qed.

(** [in >> n] reads back an [int] written by [out << n] after any
    whitespace, when the text does not go on with a digit. *)
Lemma extract_int_show ws v rest :
  string_forallb isspace ws = true -> INT_MIN <= v <= INT_MAX ->
  stops isdigit rest ->
  extract_int (mkIStream (ws +:+ show_int v +:+ rest) false false) =
    (Some v, mkIStream rest (at_end rest) false).
Proof.
  intros Hws Hv Hrest. unfold INT_MIN, INT_MAX in Hv.
  unfold extract_int, sentry. stream_fields.
  rewrite (skipws_app ws _ Hws). unfold show_int.
  destruct (v <? 0) eqn:Hneg.
  - apply Z.ltb_lt in Hneg.
    rewrite append_cons, skipws_stop by reflexivity. stream_fields.
    change (take_sign (String "-" (show_nonneg (- v) +:+ rest)))
      with (true, show_nonneg (- v) +:+ rest).
    cbv beta iota.
    rewrite span_app; [|apply show_nonneg_digits; lia|done].
    destruct (show_nonneg_head (- v)) as (c & r & Heq & _); [lia|].
    rewrite Heq at 1. simpl at_end. cbv iota.
    rewrite show_nonneg_value by lia.
    unfold INT_MIN, INT_MAX.
    destruct (- - v <? -2147483648) eqn:H1; [apply Z.ltb_lt in H1; lia|].
    destruct (2147483647 <? - - v) eqn:H2; [apply Z.ltb_lt in H2; lia|].
    by rewrite Z.opp_involutive.
  - apply Z.ltb_ge in Hneg.
    destruct (show_nonneg_head v Hneg) as (c & r & Heq & Hc).
    destruct (isdigit_chars c Hc) as (Hsp & Hminus & Hplus).
    rewrite Heq at 1. rewrite append_cons, (skipws_stop c _ Hsp).
    stream_fields. unfold take_sign. rewrite Hminus, Hplus.
    rewrite <- append_cons, <- Heq. cbv beta iota.
    rewrite span_app; [|by apply show_nonneg_digits|done].
    rewrite Heq at 1. simpl at_end. cbv iota.
    rewrite show_nonneg_value by done.
    unfold INT_MIN, INT_MAX.
    destruct (v <? -2147483648) eqn:H1; [apply Z.ltb_lt in H1; lia|].
    destruct (2147483647 <? v) eqn:H2; [apply Z.ltb_lt in H2; lia|].
    done.
Qed.

Lemma type_word_spec type :
  type_keyword type = type_word type +:+ " " /\
  type_of_keyword (type_word type) = Some type /\
  token_name (type_word type).
Proof. by destruct type. Qed.

Lemma bad_coords_false x y :
  bad_coords x y = false <-> 0 <= x <= 500 /\ 0 <= y <= 500.
Proof. unfold bad_coords. rewrite !orb_false_iff, !Z.ltb_ge. lia. Qed.

Lemma space_append (s : string) : " " +:+ s = String " " s.
Proof. reflexivity. Qed.

Lemma endl_append (s : string) : endl +:+ s = String (ascii_of_nat 10) s.
Proof. reflexivity. Qed.

(** [loadFromStream] on a line in the format of the save file: the entity
    is rebuilt when its coordinates pass the bounds test, refused
    otherwise; in both cases the stream is left at the end of the line. *)
Lemma loadFromStream_line ws type name x y rest :
  string_forallb isspace ws = true -> token_name name ->
  INT_MIN <= x <= INT_MAX -> INT_MIN <= y <= INT_MAX ->
  loadFromStream (mkIStream (ws +:+ line_text type name x y +:+ endl +:+ rest) false false) =
    (if bad_coords x y then None else Some (createNPC type name x y),
     mkIStream (endl +:+ rest) false false).
Proof.
  intros Hws Hname Hx Hy.
  destruct (type_word_spec type) as (Hkw & Hty & Hword).
  unfold line_text. rewrite Hkw. rewrite !append_assoc.
  unfold loadFromStream.
  rewrite (extract_string_token ws (type_word type)); [|done|done|by rewrite space_append].
  rewrite space_append at 1. simpl at_end. rewrite <- space_append.
  rewrite (extract_string_token " " name); [|done|done|by rewrite space_append].
  rewrite space_append at 1. simpl at_end. rewrite <- space_append.
  rewrite (extract_int_show " " x); [|done|done|by rewrite space_append].
  rewrite space_append at 1. simpl at_end. rewrite <- space_append.
  rewrite (extract_int_show " " y); [|done|done|by rewrite endl_append].
  rewrite endl_append at 1. simpl at_end. simpl failbit. cbv iota.
  rewrite Hty. by destruct (bad_coords x y).
Qed.

Lemma skipws_all_space ws :
  string_forallb isspace ws = true -> skipws ws = EmptyString.
Proof.
  induction ws as [|c ws IH]; [done|].
  rewrite string_forallb_cons. intros [Hc Hws]%andb_prop. simpl. rewrite Hc. auto.
Qed.

(** At the end of the text [loadFromStream] returns the null pointer. *)
Lemma loadFromStream_end ws :
  string_forallb isspace ws = true ->
  fst (loadFromStream (mkIStream ws false false)) = None.
Proof.
  intros Hws.
  assert (failbit (snd (loadFromStream (mkIStream ws false false))) = true) as Hf.
  { rewrite loadFromStream_stream.
    apply extract_int_sticky, extract_int_sticky, extract_string_sticky.
    unfold extract_string, sentry. stream_fields. by rewrite skipws_all_space. }
  destruct (loadFromStream _) as [[npc|] s'] eqn:Hload; [|done].
  apply loadFromStream_some in Hload as (Hf' & _). simpl in Hf. congruence.
Qed.

Lemma save_line_text n :
  save_line n = line_text (getType n) (getName n) (getX n) (getY n) +:+ endl.
Proof. unfold save_line, line_text. by rewrite !append_assoc. Qed.

Lemma save_line_length n : (1 <= String.length (save_line n))%nat.
Proof. unfold save_line. rewrite length_append. destruct (getType n); simpl; lia. Qed.

Lemma savable_int n :
  savable n -> INT_MIN <= getX n <= INT_MAX /\ INT_MIN <= getY n <= INT_MAX.
Proof. intros [_ H%bad_coords_false]. unfold INT_MIN, INT_MAX. lia. Qed.

(** Reading back what [save_text] wrote yields the entities that were alive. *)
Lemma load_loop_save_text npcs :
  Forall savable npcs ->
  forall ws acc fuel,
    string_forallb isspace ws = true ->
    (String.length (ws +:+ save_text npcs) < fuel)%nat ->
    load_loop fuel (mkIStream (ws +:+ save_text npcs) false false) acc =
      Some (acc ++ purge npcs).
Proof.
  induction 1 as [|n npcs Hn _ IH]; intros ws acc fuel Hws Hfuel.
  - destruct fuel as [|fuel]; [lia|]. simpl save_text. rewrite append_nil_r.
    simpl load_loop. pose proof (loadFromStream_end ws Hws) as Hend.
    destruct (loadFromStream _) as [[npc|] s']; [done|]. simpl. by rewrite app_nil_r.
  - simpl save_text in *. simpl purge.
    destruct (isAlive n) eqn:Halive; simpl negb in *; cbv iota in *.
    + destruct fuel as [|fuel]; [lia|].
      rewrite save_line_text, append_assoc in Hfuel |- *.
      destruct (savable_int n Hn) as [Hx Hy]. destruct Hn as [Hname Hcoords].
      simpl load_loop.
      rewrite loadFromStream_line by done. rewrite Hcoords.
      replace (createNPC (getType n) (getName n) (getX n) (getY n)) with n
        by (destruct n; simpl in *; by subst).
      rewrite IH; [by rewrite <- app_assoc|done|].
      rewrite !length_append in Hfuel. rewrite length_append.
      assert (1 <= String.length (line_text (getType n) (getName n) (getX n) (getY n)))%nat.
      { unfold line_text. rewrite length_append. destruct (getType n); simpl; lia. }
      lia.
    + by apply IH.
Qed.

(** ** Invariants of the registry *)

Lemma load_loop_registry fuel s acc loaded :
  Forall (fun n => isAlive n = true /\ bad_coords (getX n) (getY n) = false) acc ->
  load_loop fuel s acc = Some loaded ->
  Forall (fun n => isAlive n = true /\ bad_coords (getX n) (getY n) = false) loaded.
Proof.
  revert s acc. induction fuel as [|fuel IH]; intros s acc Hacc; [done|].
  simpl. destruct (loadFromStream s) as [[npc|] s'] eqn:Hload.
  - apply IH. apply Forall_app. split; [done|].
    apply loadFromStream_some in Hload as (_ & Ha & Hb). by repeat constructor.
  - by intros [= <-].
Qed.

Lemma sublist_Forall {A} (P : A -> Prop) (k l : list A) :
  sublist k l -> Forall P l -> Forall P k.
Proof.
  induction 1 as [|x k l _ IH|x k l _ IH]; intros Hl; [done| |].
  - apply Forall_cons in Hl as [Hx Hl]. constructor; auto.
  - apply Forall_cons in Hl as [_ Hl]. auto.
Qed.

Lemma battle_sublist range npcs : sublist (fst (battle range npcs)) npcs.
Proof. apply purge_frame_sublist, battle_loops_frame. Qed.

(** Every registry the operations can produce holds only entities that are
    alive and whose coordinates are within the bounds. *)
Lemma reachable_registry npcs :
  reachable npcs ->
  Forall (fun n => isAlive n = true /\ bad_coords (getX n) (getY n) = false) npcs.
Proof.
  induction 1 as [|type name x y npcs _ IH|filename fs npcs loaded _ _ Hload|range npcs _ IH].
  - constructor.
  - unfold addNPC. destruct (bad_coords x y) eqn:Hb; simpl; [done|].
    apply Forall_app. split; [done|]. by repeat constructor.
  - unfold loadFromFile in Hload. eapply load_loop_registry; [|exact Hload]. constructor.
  - eapply sublist_Forall; [apply battle_sublist|done].
Qed.

Lemma reachable_alive npcs :
  reachable npcs -> Forall (fun n => isAlive n = true) npcs.
Proof. intros H%reachable_registry. eapply Forall_impl; [exact H|]. by intros n [? _]. Qed.

(** ** The command loop *)

(** The body of the loop always completes and never puts input back. *)
Lemma command_body_total g command st :
  exists leave st',
    command_body g command st = Some (leave, st') /\
    (String.length (buf (cin st')) <= String.length (buf (cin st)))%nat.
Proof.
  unfold command_body.
  destruct (String.eqb command "add").
  { pose proof (extract_string_length (cin st)) as H1.
    destruct (extract_string (cin st)) as [type c1]. simpl in H1.
    pose proof (extract_string_length c1) as H2.
    destruct (extract_string c1) as [name c2]. simpl in H2.
    pose proof (extract_int_length c2) as H3.
    destruct (extract_int c2) as [x c3]. simpl in H3.
    pose proof (extract_int_length c3) as H4.
    destruct (extract_int c3) as [y c4]. simpl in H4.
    destruct (type_of_word _).
    - destruct (addNPC _ _ _ _ _). eexists _, _. split; [done|]. simpl. lia.
    - eexists _, _. split; [done|]. simpl. lia. }
  destruct (String.eqb command "print").
  { eexists _, _. split; [done|]. simpl. lia. }
  destruct (String.eqb command "save").
  { pose proof (extract_string_length (cin st)) as H1.
    destruct (extract_string (cin st)) as [filename c1]. simpl in H1.
    eexists _, _. split; [done|]. simpl. lia. }
  destruct (String.eqb command "load").
  { pose proof (extract_string_length (cin st)) as H1.
    destruct (extract_string (cin st)) as [filename c1]. simpl in H1.
    destruct (loadFromFile_total (default EmptyString filename) (files st)) as [npcs ->].
    eexists _, _. split; [done|]. simpl. lia. }
  destruct (String.eqb command "battle").
  { pose proof (extract_double_length (cin st)) as H1.
    destruct (extract_double (cin st)) as [range c1]. simpl in H1.
    destruct (battle _ _). eexists _, _. split; [done|]. simpl. lia. }
  destruct (String.eqb command "exit").
  { eexists _, _. split; [done|]. lia. }
  eexists _, _. split; [done|]. simpl. lia.
Qed.

(** The loop ends within the bound given by the input, and it is left
    either by [exit] or on a failed read of the command word. *)
Lemma command_loop_total fuel g st :
  (String.length (buf (cin st)) < fuel)%nat ->
  exists how st',
    command_loop fuel g st = Some (how, st') /\
    (how = ByExit \/ (how = ByFailedRead /\ failbit (cin st') = true)).
Proof.
  revert st. induction fuel as [|fuel IH]; intros st Hlen; [lia|].
  simpl. pose proof (extract_string_consumes (cin st)) as Hcons.
  destruct (extract_string (cin st)) as [command c1]. simpl in Hcons.
  destruct (failbit c1) eqn:Hfail.
  - eexists _, _. split; [done|]. right. by split.
  - set (st2 := mkProcess c1 _ _ _).
    destruct (command_body_total g (default EmptyString command) st2)
      as (leave & st3 & -> & Hlen3).
    destruct leave.
    + eexists _, _. split; [done|]. by left.
    + apply IH. subst st2. simpl in Hlen3. specialize (Hcons eq_refl). lia.
Qed.

(** ** Printing and saving *)

Lemma print_purge npcs : print npcs = map print_line (purge npcs).
Proof.
  induction npcs as [|n npcs IH]; simpl; [done|].
  destruct (isAlive n); simpl; by rewrite IH.
Qed.

Lemma save_text_purge npcs : save_text npcs = concat_text (map save_line (purge npcs)).
Proof.
  induction npcs as [|n npcs IH]; simpl; [done|].
  destruct (isAlive n); simpl; by rewrite IH.
Qed.

Lemma print_app npcs more : print (npcs ++ more) = print npcs ++ print more.
Proof.
  induction npcs as [|n npcs IH]; simpl; [done|].
  destruct (isAlive n); simpl; by rewrite IH.
Qed.

Lemma loadFromFile_file_f text :
  loadFromFile "f" (file_f text) =
    load_loop (S (String.length text)) (mkIStream text false false) [].
Proof. unfold loadFromFile, file_f. simpl fs_files. by rewrite lookup_singleton_eq. Qed.

Lemma loadFromFile_saved filename npcs fs :
  fs_writable fs filename = true ->
  loadFromFile filename (saveToFile filename npcs fs) =
    load_loop (S (String.length (save_text npcs)))
      (mkIStream (save_text npcs) false false) [].
Proof.
  intros Hw. unfold loadFromFile, saveToFile. rewrite Hw. simpl fs_files.
  by rewrite lookup_insert_eq.
Qed.

(** ** Consequences used below *)

(** A battle in which no pair within range matches the rule table leaves a
    registry of the program as it was. *)
Lemma battle_quiet range npcs :
  reachable npcs ->
  (forall (i j : nat) (a b : NPC),
     (i < j)%nat -> npcs !! i = Some a -> npcs !! j = Some b ->
     in_range a b range = true ->
     kills (getType a) (getType b) = false /\ kills (getType b) (getType a) = false) ->
  battle range npcs = (npcs, []).
Proof.
  intros Hreach Hquiet. unfold battle.
  rewrite (battle_loops_quiet range npcs Hquiet). simpl.
  by rewrite purge_all_alive by by apply reachable_alive.
Qed.

(** Whatever [load] returns is alive. *)
Lemma loadFromFile_alive filename fs :
  Forall (fun n => isAlive n = true) (default [] (loadFromFile filename fs)).
Proof.
  destruct (loadFromFile filename fs) as [loaded|] eqn:Hload; simpl; [|constructor].
  eapply Forall_impl.
  - eapply (load_loop_registry _ _ []); [constructor|exact Hload].
  - by intros n [? _].
Qed.

(** When the extraction of a token fails. *)
Lemma extract_string_fails s :
  failbit (snd (extract_string s)) = negb (good s) || at_end (skipws (buf s)).
Proof.
  unfold extract_string, sentry. destruct (good s); [|done].
  destruct (skipws (buf s)) as [|c r]; [done|].
  cbn [buf]. by destruct (span _ (String c r)).
Qed.

(** * The claims *)

(** C1, as stated, fails on the code: with the registry order Knight "K",
    Dragon "Dr", Princess "Pr", all at the origin, [battle 0] leaves two
    entities, K and Pr, and writes the single line of K killing Dr; there
    is no kill of Pr. *)
Lemma C1_princess_survives :
  fst (battle 0%float scenario_K_Dr_Pr) =
    [at_origin KNIGHT "K"; at_origin PRINCESS "Pr"] /\
  snd (battle 0%float scenario_K_Dr_Pr) =
    [onKill (at_origin KNIGHT "K") (at_origin DRAGON "Dr")].
Proof. by vm_compute. Qed.

(** C1, amended: for the registry K, Dr, Pr at the origin, [battle 0]
    produces exactly one kill, K kills Dr, in the pair (0,1); the loops end
    with Dr marked dead and Pr alive, because the outer loop skips the dead
    Dr when its turn comes; after the purge the survivors are K and Pr, in
    that order. *)
Theorem C1_knight_kills_dragon_only :
  battle_loops 0%float scenario_K_Dr_Pr =
    mkArena [at_origin KNIGHT "K"; markDead (at_origin DRAGON "Dr");
             at_origin PRINCESS "Pr"]
            [onKill (at_origin KNIGHT "K") (at_origin DRAGON "Dr")] /\
  alive_at 1 (battle_loops 0%float scenario_K_Dr_Pr) = false /\
  battle 0%float scenario_K_Dr_Pr =
    ([at_origin KNIGHT "K"; at_origin PRINCESS "Pr"],
     [onKill (at_origin KNIGHT "K") (at_origin DRAGON "Dr")]).
Proof. by vm_compute. Qed.

(** C2, as stated, fails on the code: a file whose first line has an
    out-of-range coordinate and whose second line is well formed loads as
    the empty registry; the well-formed line is never read. *)
Lemma C2_bad_line_first_loads_nothing :
  loadFromFile "f"
    (file_f (line_text KNIGHT "a" 600 1 +:+ endl +:+
             line_text KNIGHT "b" 1 1 +:+ endl)) = Some [].
Proof. by vm_compute. Qed.

(** C4: the registry after [battle] is the arena of the loops without its
    dead entities: every survivor is alive, no entity the loops left dead
    is in it, and [print] and [saveToFile] write a line for each of its
    entities and for nothing else.  The same holds of every registry the
    operations produce afterwards: all its entities are alive. *)
Theorem C4_dead_entities_are_purged :
  (forall range npcs,
     fst (battle range npcs) = purge (arena_npcs (battle_loops range npcs)) /\
     Forall (fun n => isAlive n = true) (fst (battle range npcs)) /\
     (forall n, isAlive n = false -> n ∉ fst (battle range npcs)) /\
     print (fst (battle range npcs)) = map print_line (fst (battle range npcs)) /\
     save_text (fst (battle range npcs)) =
       concat_text (map save_line (fst (battle range npcs)))) /\
  (forall npcs, print npcs = map print_line (purge npcs)) /\
  (forall npcs, save_text npcs = concat_text (map save_line (purge npcs))) /\
  (forall npcs,
     reachable npcs ->
     Forall (fun n => isAlive n = true) npcs /\
     print npcs = map print_line npcs /\
     save_text npcs = concat_text (map save_line npcs)).
Proof.
  split; [|split; [exact print_purge|split; [exact save_text_purge|]]].
  - intros range npcs.
    pose proof (purge_alive (arena_npcs (battle_loops range npcs))) as Halive.
    change (purge (arena_npcs (battle_loops range npcs)))
      with (fst (battle range npcs)) in Halive.
    split; [done|]. split; [done|]. split; [|split].
    + intros n Hdead Hin. rewrite Forall_forall in Halive.
      rewrite (Halive n Hin) in Hdead. discriminate.
    + by rewrite print_purge, purge_all_alive.
    + by rewrite save_text_purge, purge_all_alive.
  - intros npcs Halive%reachable_alive. split; [done|].
    by rewrite print_purge, save_text_purge, purge_all_alive.
Qed.

(** A dragon and a princess are added at the origin and [battle 0] is run:
    the dragon kills the princess, and the registry that is left holds
    only entities that are alive, all of them printed and saved. *)
Lemma C4_after_battle_witness :
  Forall (fun n => isAlive n = true) (fst (battle 0%float dragon_and_princess)) /\
  print (fst (battle 0%float dragon_and_princess)) =
    map print_line (fst (battle 0%float dragon_and_princess)) /\
  save_text (fst (battle 0%float dragon_and_princess)) =
    concat_text (map save_line (fst (battle 0%float dragon_and_princess))).
Proof.
  apply (proj2 (proj2 (proj2 C4_dead_entities_are_purged))).
  apply reach_battle. unfold dragon_and_princess.
  apply reach_add, reach_add, reach_empty.
Defined.

(** C6, as stated, fails on the code: the registry made by adding a knight
    with the empty name, which contains no whitespace, is saved as a line
    with three tokens, and loading that file gives the empty registry.
    Likewise a registry saved under a name that cannot be opened for
    writing is not there to be loaded. *)
Lemma C6_empty_name_is_lost :
  fst (addNPC KNIGHT EmptyString 1 1 []) = [createNPC KNIGHT EmptyString 1 1] /\
  no_whitespace EmptyString = true /\
  loadFromFile "f" (saveToFile "f" [createNPC KNIGHT EmptyString 1 1] empty_fs) = Some [] /\
  loadFromFile "f" (saveToFile "f" [createNPC KNIGHT "K" 1 1] locked_fs) = Some [].
Proof. by vm_compute. Qed.

(** C6, amended: for every registry the operations produce, whose names
    are not empty and contain no whitespace, saving to a file that can be
    opened for writing and loading that file gives back the registry:
    the same entities in the same order; the empty registry included. *)
Theorem C6_save_then_load_roundtrip filename fs npcs :
  fs_writable fs filename = true ->
  reachable npcs ->
  Forall (fun n => token_name (getName n)) npcs ->
  loadFromFile filename (saveToFile filename npcs fs) = Some npcs.
Proof.
  intros Hw Hreach Hnames. rewrite loadFromFile_saved by done.
  pose proof (reachable_registry npcs Hreach) as Hreg.
  rewrite <- (append_nil_l (save_text npcs)) at 2.
  rewrite load_loop_save_text; [|apply Forall_forall|done|rewrite append_nil_l; lia].
  - simpl. f_equal. apply purge_all_alive. by apply reachable_alive.
  - intros n Hn. rewrite Forall_forall in Hnames, Hreg.
    split; [by apply Hnames|by apply Hreg].
Qed.

(** The empty registry, and a registry of a knight and a dragon added one
    after the other, saved to "f" and loaded again. *)
Lemma C6_roundtrip_witness :
  loadFromFile "f" (saveToFile "f" [] empty_fs) = Some [] /\
  loadFromFile "f"
    (saveToFile "f" (fst (addNPC DRAGON "D" 3 4 (fst (addNPC KNIGHT "K" 0 500 []))))
       empty_fs) =
    Some (fst (addNPC DRAGON "D" 3 4 (fst (addNPC KNIGHT "K" 0 500 [])))).
Proof.
  split.
  - apply (C6_save_then_load_roundtrip "f" empty_fs []);
      [reflexivity|apply reach_empty|constructor].
  - apply (C6_save_then_load_roundtrip "f" empty_fs
             (fst (addNPC DRAGON "D" 3 4 (fst (addNPC KNIGHT "K" 0 500 []))))).
    + reflexivity.
    + apply reach_add, reach_add, reach_empty.
    + repeat constructor; discriminate.
Defined.

(** C7: [battle] returns the registry as it was and writes nothing when no
    pair within range matches the rule table (a dragon kills a princess, a
    knight kills a dragon), in particular when no pair is within range at
    all; two knights at distance 1 survive [battle 10]; and a visit changes
    nothing when the visiting entity is a princess, when both entities are
    of the same kind, or when a knight visits a princess. *)
Theorem C7_battle_without_matching_pair_is_noop :
  (forall range (npcs : list NPC),
     reachable npcs ->
     (forall (i j : nat) (a b : NPC),
        (i < j)%nat -> npcs !! i = Some a -> npcs !! j = Some b ->
        in_range a b range = true ->
        kills (getType a) (getType b) = false /\
        kills (getType b) (getType a) = false) ->
     battle range npcs = (npcs, [])) /\
  (forall range (npcs : list NPC),
     reachable npcs ->
     (forall (i j : nat) (a b : NPC),
        (i < j)%nat -> npcs !! i = Some a -> npcs !! j = Some b ->
        in_range a b range = false) ->
     battle range npcs = (npcs, [])) /\
  battle 10%float two_knights = (two_knights, []) /\
  (forall range st self other s o,
     arena_npcs st !! self = Some s -> arena_npcs st !! other = Some o ->
     getType s = PRINCESS \/ getType s = getType o \/
       (getType s = KNIGHT /\ getType o = PRINCESS) ->
     accept range self other st = st).
Proof.
  split; [exact battle_quiet|]. split; [|split].
  - intros range npcs Hreach Hfar. apply battle_quiet; [done|].
    intros i j a b Hij Ha Hb Hr. rewrite (Hfar i j a b Hij Ha Hb) in Hr. discriminate.
  - by vm_compute.
  - intros range st self other s o Hs Ho Hkinds.
    apply (accept_noop range self other st s o Hs Ho). intros _.
    destruct Hkinds as [->|[->|[-> ->]]]; [done| |done]. by destruct (getType o).
Qed.

(** The two knights, added one after the other, under [battle 10]: they are
    within range of each other and no rule applies. *)
Lemma C7_two_knights_witness : battle 10%float two_knights = (two_knights, []).
Proof.
  apply (proj1 C7_battle_without_matching_pair_is_noop 10%float two_knights).
  - change two_knights
      with (fst (addNPC KNIGHT "B" 0 1 (fst (addNPC KNIGHT "A" 0 0 [])))).
    apply reach_add, reach_add, reach_empty.
  - intros [|[|i]] [|[|j]] a b Hij Ha Hb _; vm_compute in Ha, Hb;
      try discriminate Ha; try discriminate Hb.
    + exfalso. exact (Nat.lt_irrefl _ Hij).
    + injection Ha as <-. injection Hb as <-. split; reflexivity.
    + injection Ha as <-. injection Hb as <-. split; reflexivity.
    + injection Ha as <-. injection Hb as <-. split; reflexivity.
Defined.

(** C8, as stated, fails on the code: on the input "battle x exit" the loop
    is left because the read of a command word fails, with "x exit" still
    unread and the end of the input not reached; [exit] is never executed. *)
Lemma C8_bad_number_ends_the_loop :
  outcome (main no_garbage empty_fs "battle x exit") =
    Some (0, ByFailedRead, mkIStream "x exit" false true).
Proof. by vm_compute. Qed.



(** C10: an entity is constructed alive with the kind, name and coordinates
    given; [markDead] changes the alive flag only, to false; the loops of a
    battle keep, at every index, the kind, name and coordinates, and leave
    alive only what was alive; the registry after a battle is a
    subsequence of the registry before it, entity for entity; [add] keeps
    the registry as a prefix; [load] yields newly constructed, alive
    entities. *)
Theorem C10_only_the_alive_flag_changes :
  (forall type name x y,
     getType (createNPC type name x y) = type /\
     getName (createNPC type name x y) = name /\
     getX (createNPC type name x y) = x /\
     getY (createNPC type name x y) = y /\
     isAlive (createNPC type name x y) = true) /\
  (forall n, frame n (markDead n) /\ isAlive (markDead n) = false) /\
  (forall range npcs, Forall2 frame npcs (arena_npcs (battle_loops range npcs))) /\
  (forall range npcs, sublist (fst (battle range npcs)) npcs) /\
  (forall type name x y npcs, npcs `prefix_of` fst (addNPC type name x y npcs)) /\
  (forall filename fs,
     Forall (fun n => isAlive n = true) (default [] (loadFromFile filename fs))).
Proof.
  split; [done|]. split; [|split; [exact battle_loops_frame|]].
  { intros n. split; [apply frame_markDead|done]. }
  split; [exact battle_sublist|]. split; [|exact loadFromFile_alive].
  intros type name x y npcs. unfold addNPC.
  destruct (bad_coords x y); simpl; [done|]. by apply prefix_app_r.
Qed.

(** The loops of [battle 0] on the second scenario: three entities before
    and after, index by index the same but for the alive flags. *)
Lemma C10_frame_witness :
  Forall2 frame scenario_Dr_K_Pr (arena_npcs (battle_loops 0%float scenario_Dr_K_Pr)).
Proof.
  apply (proj1 (proj2 (proj2 C10_only_the_alive_flag_changes)) 0%float scenario_Dr_K_Pr).
Defined.

(** * Further properties of the code *)

(** ** The battle, pair by pair *)

Lemma in_range_frame a a' b b' range :
  frame a a' -> frame b b' -> in_range a b range = in_range a' b' range.
Proof.
  intros (_ & _ & Hx & Hy & _) (_ & _ & Hx' & Hy' & _).
  unfold in_range, distanceTo. by rewrite Hx, Hy, Hx', Hy'.
Qed.

Lemma Forall2_frame_lookup (l l' : list NPC) i a :
  Forall2 frame l l' -> l !! i = Some a ->
  exists a', l' !! i = Some a' /\ frame a a'.
Proof. intros H Ha. by eapply Forall2_lookup_l. Qed.

Lemma Forall2_frame_lookup_r (l l' : list NPC) i a' :
  Forall2 frame l l' -> l' !! i = Some a' ->
  exists a, l !! i = Some a /\ frame a a'.
Proof. intros H Ha. by eapply Forall2_lookup_r. Qed.

(** Alive afterwards, alive before. *)
Lemma alive_at_frame (l l' : list NPC) out out' i :
  Forall2 frame l l' ->
  alive_at i (mkArena l' out') = true -> alive_at i (mkArena l out) = true.
Proof.
  intros H. unfold alive_at. simpl.
  destruct (l' !! i) as [a'|] eqn:Ha'; [|done].
  destruct (Forall2_frame_lookup_r l l' i a' H Ha') as (a & -> & Hf).
  apply Hf.
Qed.

(** X1: a battle between two entities that are alive is decided by the
    range and the rule table alone: within range, the one whose kind kills
    the kind of the other is left alone in the registry and one line is
    written; otherwise both stay and nothing is written. *)
Theorem X1_battle_of_two range a b :
  isAlive a = true -> isAlive b = true ->
  battle range [a; b] =
    if in_range a b range then
      if kills (getType a) (getType b) then ([a], [onKill a b])
      else if kills (getType b) (getType a) then ([b], [onKill b a])
      else ([a; b], [])
    else ([a; b], []).
Proof.
  intros Ha Hb.
  assert (battle_loops range [a; b] = pair_step range 0 1 (mkArena [a; b] [])) as Hloops.
  { assert (alive_at 0 (mkArena [a; b] []) = true) as H0 by exact Ha.
    assert (alive_at 1 (mkArena [a; b] []) = true) as H1 by exact Hb.
    unfold battle_loops. simpl. rewrite !H0, !H1. clear H0 H1.
    by destruct (alive_at 1 (pair_step _ _ _ _)). }
  unfold battle. rewrite Hloops. clear Hloops. unfold pair_step.
  destruct (in_range a b range) eqn:Hr.
  - destruct (kills (getType a) (getType b)) eqn:Hab.
    + rewrite (accept_kills range 0 1 (mkArena [a; b] []) a b) by done.
      rewrite (accept_noop range 1 0 _ (markDead b) a) by
        (try done; intros _; simpl; by destruct (getType a), (getType b)).
      simpl. by rewrite Ha.
    + rewrite (accept_noop range 0 1 (mkArena [a; b] []) a b) by done.
      destruct (kills (getType b) (getType a)) eqn:Hba.
      * rewrite (accept_kills range 1 0 (mkArena [a; b] []) b a)
          by (try done; by rewrite in_range_sym).
        simpl. by rewrite Hb.
      * rewrite (accept_noop range 1 0 (mkArena [a; b] []) b a) by done.
        simpl. by rewrite Ha, Hb.
  - rewrite (accept_noop range 0 1 (mkArena [a; b] []) a b)
      by (try done; intros Hr'; congruence).
    rewrite (accept_noop range 1 0 (mkArena [a; b] []) b a)
      by (try done; rewrite in_range_sym; intros Hr'; congruence).
    simpl. by rewrite Ha, Hb.
Qed.

(** A witness of [X1_battle_of_two]: a dragon at (0,0) and a princess at
    (3,4), at distance 5, under [battle 5]. *)
Lemma X1_dragon_princess_witness :
  battle 5%float [createNPC DRAGON "D" 0 0; createNPC PRINCESS "P" 3 4] =
    ([createNPC DRAGON "D" 0 0],
     [onKill (createNPC DRAGON "D" 0 0) (createNPC PRINCESS "P" 3 4)]).
Proof.
  exact (X1_battle_of_two 5%float (createNPC DRAGON "D" 0 0)
           (createNPC PRINCESS "P" 3 4) eq_refl eq_refl).
Defined.

(** ** Deaths and notifications *)

Lemma dead_count_cons n l :
  dead_count (n :: l) = ((if isAlive n then 0 else 1) + dead_count l)%nat.
Proof. unfold dead_count. simpl. by destruct (isAlive n). Qed.

Lemma dead_count_alter l j o :
  l !! j = Some o -> isAlive o = true ->
  dead_count (alter markDead j l) = S (dead_count l).
Proof.
  revert j. induction l as [|n l IH]; intros [|j] Hj Ho; try done.
  - simpl in Hj. injection Hj as ->.
    change (alter markDead 0 (o :: l)) with (markDead o :: l).
    rewrite !dead_count_cons. simpl. by rewrite Ho.
  - change (alter markDead (S j) (n :: l)) with (n :: alter markDead j l).
    rewrite !dead_count_cons, (IH j Hj Ho). lia.
Qed.

Lemma accept_dead_count range self other st :
  (dead_count (arena_npcs (accept range self other st)) + length (arena_cout st))%nat =
  (dead_count (arena_npcs st) + length (arena_cout (accept range self other st)))%nat.
Proof.
  destruct (accept_cases range self other st)
    as [->|(s & o & _ & Ho & Ha & _ & _ & ->)]; [done|].
  simpl. rewrite (dead_count_alter _ _ o Ho Ha), length_app. simpl. lia.
Qed.

Lemma pair_step_dead_count range i j st :
  (dead_count (arena_npcs (pair_step range i j st)) + length (arena_cout st))%nat =
  (dead_count (arena_npcs st) + length (arena_cout (pair_step range i j st)))%nat.
Proof.
  unfold pair_step.
  pose proof (accept_dead_count range i j st).
  pose proof (accept_dead_count range j i (accept range i j st)). lia.
Qed.

Lemma inner_loop_dead_count range i js st :
  (dead_count (arena_npcs (inner_loop range i js st)) + length (arena_cout st))%nat =
  (dead_count (arena_npcs st) + length (arena_cout (inner_loop range i js st)))%nat.
Proof.
  revert st. induction js as [|j js IH]; intros st; simpl; [done|].
  destruct (alive_at j st); [|apply IH].
  pose proof (pair_step_dead_count range i j st).
  pose proof (IH (pair_step range i j st)). lia.
Qed.

Lemma outer_loop_dead_count range size idx st :
  (dead_count (arena_npcs (outer_loop range size idx st)) + length (arena_cout st))%nat =
  (dead_count (arena_npcs st) + length (arena_cout (outer_loop range size idx st)))%nat.
Proof.
  revert st. induction idx as [|i idx IH]; intros st; simpl; [done|].
  destruct (alive_at i st); [|apply IH].
  pose proof (inner_loop_dead_count range i (seq (S i) (size - S i)) st).
  pose proof (IH (inner_loop range i (seq (S i) (size - S i)) st)). lia.
Qed.

Lemma purge_length l : (length (purge l) + dead_count l)%nat = length l.
Proof.
  induction l as [|n l IH]; [done|].
  rewrite dead_count_cons. simpl. destruct (isAlive n); simpl; lia.
Qed.

(** X2: one line is written for each death and nobody dies twice: the
    entities removed by a battle are those that were already dead and one
    per line written to the console. *)
Theorem X2_one_line_per_death range npcs :
  (length (fst (battle range npcs)) + length (snd (battle range npcs)) +
   dead_count npcs)%nat = length npcs.
Proof.
  unfold battle. simpl.
  pose proof (outer_loop_dead_count range (length npcs) (seq 0 (length npcs))
                (mkArena npcs [])) as Hcount.
  fold (battle_loops range npcs) in Hcount. simpl in Hcount.
  pose proof (purge_length (arena_npcs (battle_loops range npcs))) as Hpurge.
  pose proof (Forall2_length _ _ _ (battle_loops_frame range npcs)) as Hlen.
  lia.
Qed.

(** ** Who kills whom *)

Lemma kills_irrefl_types (s o : NPC) :
  kills (getType s) (getType o) = true -> getType s <> getType o.
Proof. by destruct (getType s), (getType o). Qed.

Lemma alive_at_initially (npcs : list NPC) st i :
  Forall2 frame npcs (arena_npcs st) -> alive_at i st = true ->
  exists a, npcs !! i = Some a /\ isAlive a = true.
Proof.
  intros Hframe Hi. unfold alive_at in Hi.
  destruct (arena_npcs st !! i) as [a'|] eqn:Ha'; [|done].
  destruct (Forall2_frame_lookup_r _ _ i a' Hframe Ha') as (a & Ha & Hf).
  exists a. split; [done|]. by apply Hf.
Qed.

Lemma accept_justified range npcs self other st :
  Forall2 frame npcs (arena_npcs st) ->
  (exists a, npcs !! self = Some a /\ isAlive a = true) ->
  justified range npcs st ->
  justified range npcs (accept range self other st).
Proof.
  intros Hframe (a0 & Ha0 & Halive0) Hjust.
  destruct (accept_cases range self other st)
    as [->|(s & o & Hs & Ho & Ha & Hr & Hk & ->)]; [done|].
  intros j b Hb Hbalive Hdead.
  destruct (decide (j = other)) as [->|Hne].
  - destruct (Forall2_frame_lookup _ _ self a0 Hframe Ha0) as (s' & Hs' & Hfs).
    destruct (Forall2_frame_lookup _ _ other b Hframe Hb) as (o' & Ho' & Hfo).
    rewrite Hs in Hs'. injection Hs' as <-. rewrite Ho in Ho'. injection Ho' as <-.
    exists self, a0. split; [done|]. split; [done|]. split.
    + intros ->. rewrite Hs in Ho. injection Ho as ->.
      by apply kills_irrefl_types in Hk.
    + rewrite (in_range_frame a0 s b o) by done.
      destruct Hfs as (-> & _), Hfo as (-> & _). done.
  - apply (Hjust j b Hb Hbalive).
    unfold alive_at in *. simpl in Hdead. by rewrite list_lookup_alter_ne in Hdead.
Qed.

Lemma inner_loop_justified range npcs i js st :
  Forall2 frame npcs (arena_npcs st) ->
  (exists a, npcs !! i = Some a /\ isAlive a = true) ->
  justified range npcs st ->
  justified range npcs (inner_loop range i js st).
Proof.
  intros Hframe Hi. revert st Hframe.
  induction js as [|j js IH]; intros st Hframe Hjust; simpl; [done|].
  destruct (alive_at j st) eqn:Hj; [|by apply IH].
  apply IH.
  - eapply Forall2_frame_trans; [exact Hframe|apply pair_step_frame].
  - unfold pair_step. apply accept_justified.
    + eapply Forall2_frame_trans; [exact Hframe|apply accept_frame].
    + by apply (alive_at_initially npcs st j).
    + by apply accept_justified.
Qed.

Lemma outer_loop_justified range npcs size idx st :
  Forall2 frame npcs (arena_npcs st) ->
  justified range npcs st ->
  justified range npcs (outer_loop range size idx st).
Proof.
  revert st. induction idx as [|i idx IH]; intros st Hframe Hjust; simpl; [done|].
  destruct (alive_at i st) eqn:Hi; [|by apply IH].
  apply IH.
  - eapply Forall2_frame_trans; [exact Hframe|apply inner_loop_frame].
  - apply inner_loop_justified; [done| |done].
    by apply (alive_at_initially npcs st i).
Qed.

Lemma battle_loops_justified range npcs :
  justified range npcs (battle_loops range npcs).
Proof.
  apply outer_loop_justified; [apply Forall2_frame_refl|].
  intros j b Hb Halive Hdead. unfold alive_at in Hdead. simpl in Hdead.
  rewrite Hb in Hdead. congruence.
Qed.

(** X3: every death in a battle has a cause in the registry the battle
    started from: an entity that was alive and is dead after the loops was
    within range of another entity of the registry, itself alive when the
    battle started, whose kind kills its kind. *)
Theorem X3_every_death_has_a_killer range (npcs : list NPC) j b :
  npcs !! j = Some b -> isAlive b = true ->
  alive_at j (battle_loops range npcs) = false ->
  exists (i : nat) (a : NPC),
    npcs !! i = Some a /\ isAlive a = true /\ i <> j /\
    in_range a b range = true /\ kills (getType a) (getType b) = true.
Proof. apply battle_loops_justified. Qed.

(** A witness of [X3_every_death_has_a_killer]: the princess of the
    scenario Dragon, Knight, Princess. *)
Lemma X3_princess_witness :
  exists (i : nat) (a : NPC),
    scenario_Dr_K_Pr !! i = Some a /\ isAlive a = true /\ i <> 2%nat /\
    in_range a (at_origin PRINCESS "Pr") 0%float = true /\
    kills (getType a) (getType (at_origin PRINCESS "Pr")) = true.
Proof.
  apply (X3_every_death_has_a_killer 0%float scenario_Dr_K_Pr 2
           (at_origin PRINCESS "Pr")); vm_compute; reflexivity.
Defined.

(** The element at an index of the arena after the loops, when alive, is
    the entity the registry held at that index, and it survives the purge. *)
Lemma survivor_in_registry range (npcs : list NPC) j b :
  npcs !! j = Some b -> alive_at j (battle_loops range npcs) = true ->
  b ∈ fst (battle range npcs).
Proof.
  intros Hb Halive.
  destruct (Forall2_frame_lookup _ _ j b (battle_loops_frame range npcs) Hb)
    as (b' & Hb' & Hf).
  unfold alive_at in Halive. rewrite Hb' in Halive.
  assert (b = b') as <-.
  { destruct Hf as (Ht & Hn & Hx & Hy & Ha).
    destruct b, b'; simpl in *. rewrite (Ha Halive), Halive. congruence. }
  unfold battle, purge. simpl. apply list_elem_of_In, List.filter_In.
  split; [|done]. apply list_elem_of_In. by eapply list_elem_of_lookup_2.
Qed.

(** X4: a knight is never killed: every knight of the registry that is
    alive before a battle is in the registry after it, whatever the range
    and whoever else is there. *)
Theorem X4_knights_survive range (npcs : list NPC) b :
  b ∈ npcs -> getType b = KNIGHT -> isAlive b = true ->
  b ∈ fst (battle range npcs).
Proof.
  intros Hin Hknight Halive.
  apply list_elem_of_lookup in Hin as [j Hj].
  apply (survivor_in_registry range npcs j b Hj).
  destruct (alive_at j (battle_loops range npcs)) eqn:Hdead; [done|].
  destruct (battle_loops_justified range npcs j b Hj Halive Hdead)
    as (i & a & _ & _ & _ & _ & Hk).
  rewrite Hknight in Hk. by destruct (getType a).
Qed.

(** A witness of [X4_knights_survive]: the knight of the scenario Dragon,
    Knight, Princess. *)
Lemma X4_knight_witness :
  at_origin KNIGHT "K" ∈ fst (battle 0%float scenario_Dr_K_Pr).
Proof.
  apply (X4_knights_survive 0%float scenario_Dr_K_Pr (at_origin KNIGHT "K"));
    [|reflexivity|reflexivity].
  unfold scenario_Dr_K_Pr. apply list_elem_of_further, list_elem_of_here.
Defined.

(** ** After a battle *)

Lemma clash_frame range a a' b b' :
  frame a a' -> frame b b' -> clash range a b = clash range a' b'.
Proof.
  intros Hfa Hfb. unfold clash. rewrite (in_range_frame a a' b b') by done.
  destruct Hfa as (-> & _), Hfb as (-> & _). done.
Qed.

Lemma settled_frame range st st' i j :
  Forall2 frame (arena_npcs st) (arena_npcs st') ->
  settled range st i j -> settled range st' i j.
Proof.
  intros Hframe Hset Hi Hj a' b' Ha' Hb'.
  destruct (Forall2_frame_lookup_r _ _ i a' Hframe Ha') as (a & Ha & Hfa).
  destruct (Forall2_frame_lookup_r _ _ j b' Hframe Hb') as (b & Hb & Hfb).
  rewrite <- (clash_frame range a a' b b') by done.
  apply Hset; [| |done|done].
  - unfold alive_at in *. rewrite Ha. rewrite Ha' in Hi. by apply Hfa.
  - unfold alive_at in *. rewrite Hb. rewrite Hb' in Hj. by apply Hfb.
Qed.

Lemma alive_at_earlier st st' i :
  Forall2 frame (arena_npcs st) (arena_npcs st') ->
  alive_at i st' = true -> alive_at i st = true.
Proof.
  intros Hframe Hi. destruct st as [l out], st' as [l' out'].
  by apply (alive_at_frame l l' out out' i).
Qed.

(** A pair that clashes does not leave both of its entities alive. *)
Lemma pair_step_settled range i j st :
  i <> j -> settled range (pair_step range i j st) i j.
Proof.
  intros Hij Hi Hj a' b' Ha' Hb'.
  pose proof (pair_step_frame range i j st) as Hframe.
  destruct (Forall2_frame_lookup_r _ _ i a' Hframe Ha') as (a & Ha & Hfa).
  destruct (Forall2_frame_lookup_r _ _ j b' Hframe Hb') as (b & Hb & Hfb).
  rewrite <- (clash_frame range a a' b b') by done.
  assert (isAlive a = true) as Haa.
  { apply Hfa. unfold alive_at in Hi. by rewrite Ha' in Hi. }
  assert (isAlive b = true) as Hba.
  { apply Hfb. unfold alive_at in Hj. by rewrite Hb' in Hj. }
  destruct (clash range a b) eqn:Hclash; [exfalso|done].
  unfold clash in Hclash. apply andb_prop in Hclash as [Hr Hk].
  unfold pair_step in Hi, Hj.
  destruct (kills (getType a) (getType b)) eqn:Hab.
  - rewrite (accept_kills range i j st a b Ha Hb Hba Hr Hab) in Hj.
    apply (alive_at_earlier _ _ j (accept_frame range j i _)) in Hj.
    unfold alive_at in Hj. simpl in Hj.
    rewrite list_lookup_alter_eq, Hb in Hj. discriminate.
  - simpl in Hk.
    rewrite (accept_noop range i j st a b Ha Hb) in Hi by (intros _; exact Hab).
    rewrite (accept_kills range j i st b a Hb Ha Haa) in Hi
      by (try done; by rewrite in_range_sym).
    unfold alive_at in Hi. simpl in Hi.
    rewrite list_lookup_alter_eq, Ha in Hi. discriminate.
Qed.

Lemma inner_loop_settled range i js st j :
  i ∉ js -> j ∈ js -> settled range (inner_loop range i js st) i j.
Proof.
  revert st. induction js as [|j0 js IH]; intros st Hi Hj; [by apply elem_of_nil in Hj|].
  apply not_elem_of_cons in Hi as [Hne Hi]. simpl.
  apply elem_of_cons in Hj as [->|Hj]; [|by apply IH].
  set (st1 := if alive_at j0 st then pair_step range i j0 st else st).
  intros Hai Haj.
  assert (alive_at j0 st1 = true) as Haj1
    by (eapply alive_at_earlier; [apply inner_loop_frame|exact Haj]).
  assert (alive_at j0 st = true) as Haj0.
  { subst st1. destruct (alive_at j0 st) eqn:H0; [done|]. congruence. }
  revert Hai Haj. fold (settled range (inner_loop range i js st1) i j0).
  apply (settled_frame range st1); [apply inner_loop_frame|].
  subst st1. rewrite Haj0. by apply pair_step_settled.
Qed.

Lemma outer_loop_length range size idx st :
  length (arena_npcs (outer_loop range size idx st)) = length (arena_npcs st).
Proof. symmetry. eapply Forall2_length, outer_loop_frame. Qed.

Lemma outer_loop_settled range size idx st i j :
  i ∈ idx -> (i < j < size)%nat ->
  settled range (outer_loop range size idx st) i j.
Proof.
  revert st. induction idx as [|i0 idx IH]; intros st Hi Hij; [by apply elem_of_nil in Hi|].
  simpl. apply elem_of_cons in Hi as [->|Hi]; [|by apply IH].
  set (st1 := if alive_at i0 st
              then inner_loop range i0 (seq (S i0) (size - S i0)) st else st).
  intros Hai Haj.
  assert (alive_at i0 st1 = true) as Hai1
    by (eapply alive_at_earlier; [apply outer_loop_frame|exact Hai]).
  assert (alive_at i0 st = true) as Hai0.
  { subst st1. destruct (alive_at i0 st) eqn:H0; [done|]. congruence. }
  revert Hai Haj. fold (settled range (outer_loop range size idx st1) i0 j).
  apply (settled_frame range st1); [apply outer_loop_frame|].
  subst st1. rewrite Hai0. apply inner_loop_settled.
  - rewrite elem_of_seq. lia.
  - rewrite elem_of_seq. lia.
Qed.

Lemma battle_loops_settled range npcs i j :
  (i < j < length npcs)%nat -> settled range (battle_loops range npcs) i j.
Proof.
  intros Hij. apply outer_loop_settled; [|done]. rewrite elem_of_seq. lia.
Qed.

(** Two elements of a filtered list, in their order, come from two
    elements of the list, in the same order. *)
Lemma filter_lookup_lt {A} (p : A -> bool) (l : list A) i j a b :
  (i < j)%nat -> List.filter p l !! i = Some a -> List.filter p l !! j = Some b ->
  exists i' j', (i' < j')%nat /\ l !! i' = Some a /\ l !! j' = Some b /\
                p a = true /\ p b = true.
Proof.
  revert i j. induction l as [|x l IH]; intros i j Hij Ha Hb; [done|].
  simpl in Ha, Hb. destruct (p x) eqn:Hx.
  - destruct i as [|i].
    + simpl in Ha. injection Ha as ->. destruct j as [|j]; [lia|]. simpl in Hb.
      assert (b ∈ List.filter p l) as Hin by (by eapply list_elem_of_lookup_2).
      apply list_elem_of_In, List.filter_In in Hin as [Hin Hpb].
      apply list_elem_of_In, list_elem_of_lookup in Hin as [j' Hj'].
      exists 0%nat, (S j'). repeat split; try done; lia.
    + destruct j as [|j]; [lia|]. simpl in Ha, Hb.
      destruct (IH i j ltac:(lia) Ha Hb) as (i' & j' & Hlt & Hi' & Hj' & Hpa & Hpb).
      exists (S i'), (S j'). repeat split; try done; lia.
  - destruct (IH i j Hij Ha Hb) as (i' & j' & Hlt & Hi' & Hj' & Hpa & Hpb).
    exists (S i'), (S j'). repeat split; try done; lia.
Qed.

Lemma survivors_settled range (npcs : list NPC) i j a b :
  (i < j)%nat ->
  fst (battle range npcs) !! i = Some a -> fst (battle range npcs) !! j = Some b ->
  clash range a b = false.
Proof.
  intros Hij Ha Hb. unfold battle, purge in Ha, Hb. simpl in Ha, Hb.
  destruct (filter_lookup_lt _ _ i j a b Hij Ha Hb)
    as (i' & j' & Hlt & Hi' & Hj' & Haa & Hba).
  apply (battle_loops_settled range npcs i' j'); try done.
  - split; [done|]. apply lookup_lt_Some in Hj'.
    by rewrite <- (Forall2_length _ _ _ (battle_loops_frame range npcs)) in Hj'.
  - unfold alive_at. by rewrite Hi'.
  - unfold alive_at. by rewrite Hj'.
Qed.

(** X5: after a battle no two entities left in the registry clash: if two
    survivors are within range of each other, neither kills the other by
    the rule table. *)
Theorem X5_survivors_do_not_clash range (npcs : list NPC) i j a b :
  (i < j)%nat ->
  fst (battle range npcs) !! i = Some a -> fst (battle range npcs) !! j = Some b ->
  in_range a b range = true ->
  kills (getType a) (getType b) = false /\ kills (getType b) (getType a) = false.
Proof.
  intros Hij Ha Hb Hr.
  pose proof (survivors_settled range npcs i j a b Hij Ha Hb) as Hclash.
  unfold clash in Hclash. rewrite Hr in Hclash. simpl in Hclash.
  by apply orb_false_elim in Hclash.
Qed.

(** A witness of [X5_survivors_do_not_clash]: the knight and the princess
    left by [battle 0] in the scenario Knight, Dragon, Princess. *)
Lemma X5_knight_princess_witness :
  kills (getType (at_origin KNIGHT "K")) (getType (at_origin PRINCESS "Pr")) = false /\
  kills (getType (at_origin PRINCESS "Pr")) (getType (at_origin KNIGHT "K")) = false.
Proof.
  apply (X5_survivors_do_not_clash 0%float scenario_K_Dr_Pr 0 1
           (at_origin KNIGHT "K") (at_origin PRINCESS "Pr"));
    [apply Nat.lt_0_1|vm_compute; reflexivity..].
Defined.

(** X6: a battle is idempotent: run again with the same range on the
    registry it left, it removes nobody and writes nothing. *)
Theorem X6_battle_twice range npcs :
  battle range (fst (battle range npcs)) = (fst (battle range npcs), []).
Proof.
  unfold battle at 1.
  rewrite (battle_loops_quiet range (fst (battle range npcs))).
  - simpl. f_equal. apply purge_all_alive, purge_alive.
  - intros i j a b Hij Ha Hb Hr.
    pose proof (survivors_settled range npcs i j a b Hij Ha Hb) as Hclash.
    unfold clash in Hclash. rewrite Hr in Hclash. simpl in Hclash.
    by apply orb_false_elim in Hclash.
Qed.

(** X7: a registry without a dragon is left as it is by a battle, whatever
    the range: princesses and knights have nothing to settle. *)
Theorem X7_no_dragon_no_battle range (npcs : list NPC) :
  reachable npcs ->
  Forall (fun n => getType n <> DRAGON) npcs ->
  battle range npcs = (npcs, []).
Proof.
  intros Hreach Hnone. unfold battle.
  rewrite (battle_loops_quiet range npcs).
  - simpl. f_equal. by apply purge_all_alive, reachable_alive.
  - intros i j a b _ Ha Hb _. rewrite Forall_forall in Hnone.
    assert (getType a <> DRAGON) by (by eapply Hnone, list_elem_of_lookup_2).
    assert (getType b <> DRAGON) by (by eapply Hnone, list_elem_of_lookup_2).
    by destruct (getType a), (getType b).
Qed.

(** A witness of [X7_no_dragon_no_battle]: a knight and a princess on the
    same cell. *)
Lemma X7_knight_princess_witness :
  battle 0%float (fst (addNPC PRINCESS "P" 2 2 (fst (addNPC KNIGHT "K" 2 2 [])))) =
    (fst (addNPC PRINCESS "P" 2 2 (fst (addNPC KNIGHT "K" 2 2 []))), []).
Proof.
  apply X7_no_dragon_no_battle.
  - apply reach_add, reach_add, reach_empty.
  - repeat constructor; discriminate.
Defined.

(** ** The registry, whatever the operations *)

(** X8: the registry invariant: in every registry the operations produce,
    all entities are alive and have both coordinates in [0,500]. *)
Theorem X8_registry_invariant npcs :
  reachable npcs ->
  Forall (fun n => isAlive n = true /\ 0 <= getX n <= 500 /\ 0 <= getY n <= 500) npcs.
Proof.
  intros H%reachable_registry. eapply Forall_impl; [exact H|].
  intros n [Ha Hb%bad_coords_false]. tauto.
Qed.

(** A witness of [X8_registry_invariant]: what is left of the attempts to
    add a dragon at (500,0) and a princess at (0,501), after a battle. *)
Lemma X8_registry_witness :
  Forall (fun n => isAlive n = true /\ 0 <= getX n <= 500 /\ 0 <= getY n <= 500)
    (fst (battle 1%float
       (fst (addNPC PRINCESS "P" 0 501 (fst (addNPC DRAGON "D" 500 0 [])))))).
Proof.
  apply X8_registry_invariant.
  apply reach_battle, reach_add, reach_add, reach_empty.
Defined.

Lemma command_body_reachable g command st leave st' :
  reachable (dungeon st) ->
  command_body g command st = Some (leave, st') ->
  reachable (dungeon st').
Proof.
  intros Hreach. unfold command_body.
  destruct (String.eqb command "add").
  { destruct (extract_string (cin st)) as [type c1].
    destruct (extract_string c1) as [name c2].
    destruct (extract_int c2) as [x c3].
    destruct (extract_int c3) as [y c4].
    destruct (type_of_word _) as [npcType|]; [|by intros [= <- <-]].
    destruct (addNPC _ _ _ _ _) as [npcs out] eqn:Hadd.
    intros [= <- <-]. simpl.
    replace npcs with (fst (addNPC npcType (default EmptyString name)
      (default (ind_x g) x) (default (ind_y g) y) (dungeon st))) by (by rewrite Hadd).
    by apply reach_add. }
  destruct (String.eqb command "print"); [by intros [= <- <-]|].
  destruct (String.eqb command "save").
  { destruct (extract_string (cin st)) as [filename c1]. by intros [= <- <-]. }
  destruct (String.eqb command "load").
  { destruct (extract_string (cin st)) as [filename c1].
    destruct (loadFromFile _ _) as [npcs|] eqn:Hload; [|done].
    intros [= <- <-]. simpl. by eapply reach_load. }
  destruct (String.eqb command "battle").
  { destruct (extract_double (cin st)) as [range c1].
    destruct (battle _ _) as [npcs out] eqn:Hbattle.
    intros [= <- <-]. simpl.
    replace npcs with (fst (battle (default (ind_range g) range) (dungeon st)))
      by (by rewrite Hbattle).
    by apply reach_battle. }
  destruct (String.eqb command "exit"); by intros [= <- <-].
Qed.

Lemma command_loop_reachable fuel g st how st' :
  reachable (dungeon st) ->
  command_loop fuel g st = Some (how, st') ->
  reachable (dungeon st').
Proof.
  revert st. induction fuel as [|fuel IH]; intros st Hreach; [done|].
  simpl. destruct (extract_string (cin st)) as [command c1].
  destruct (failbit c1); [by intros [= <- <-]|].
  destruct (command_body _ _ _) as [[[] st3]|] eqn:Hbody; [| |done].
  - intros [= <- <-]. by eapply command_body_reachable in Hbody.
  - apply IH. by eapply command_body_reachable in Hbody.
Qed.

(** X9: whatever is typed, and whatever the uninitialised locals hold, the
    dungeon [main] ends with is a registry of the operations: all its
    entities are alive, with both coordinates in [0,500]. *)
Theorem X9_main_keeps_the_registry_invariant g fs input code how st :
  main g fs input = Some (code, how, st) ->
  reachable (dungeon st) /\
  Forall (fun n => isAlive n = true /\ 0 <= getX n <= 500 /\ 0 <= getY n <= 500)
    (dungeon st).
Proof.
  unfold main.
  destruct (command_loop _ _ _) as [[how' st']|] eqn:Hloop; [|done].
  intros [= <- <- <-].
  assert (reachable (dungeon st')) as Hreach
    by (eapply command_loop_reachable; [|exact Hloop]; constructor).
  split; [done|].
  apply reachable_registry in Hreach. eapply Forall_impl; [exact Hreach|].
  intros n [Ha Hb%bad_coords_false]. tauto.
Qed.

(** A witness of [X9_main_keeps_the_registry_invariant]: the session
    "add knight K 0 0 exit". *)
Lemma X9_session_witness :
  reachable [createNPC KNIGHT "K" 0 0] /\
  Forall (fun n => isAlive n = true /\ 0 <= getX n <= 500 /\ 0 <= getY n <= 500)
    [createNPC KNIGHT "K" 0 0].
Proof.
  apply (X9_main_keeps_the_registry_invariant no_garbage empty_fs
           "add knight K 0 0 exit" 0 ByExit
           (mkProcess (mkIStream EmptyString true false) [prompt; prompt]
              (open_log empty_fs) [createNPC KNIGHT "K" 0 0])).
  vm_compute. reflexivity.
Defined.

(** ** Loading *)

Lemma loadFromStream_failed s :
  failbit s = true -> fst (loadFromStream s) = None.
Proof.
  intros Hfail.
  assert (failbit (snd (loadFromStream s)) = true) as Hf.
  { rewrite loadFromStream_stream.
    by apply extract_int_sticky, extract_int_sticky, extract_string_sticky,
      extract_string_sticky. }
  destruct (loadFromStream s) as [[npc|] s'] eqn:Hload; [|done].
  apply loadFromStream_some in Hload as (Hf' & _). simpl in Hf. congruence.
Qed.

(** X10: [load] always returns; from a file that cannot be opened, and from
    a file that holds nothing but whitespace, it returns the empty
    registry. *)
Theorem X10_load_of_nothing :
  (forall filename fs, is_Some (loadFromFile filename fs)) /\
  (forall filename fs,
     fs_files fs !! filename = None -> loadFromFile filename fs = Some []) /\
  (forall filename fs ws,
     fs_files fs !! filename = Some ws -> blank ws ->
     loadFromFile filename fs = Some []).
Proof.
  split; [exact loadFromFile_total|]. split.
  - intros filename fs Hnone. unfold loadFromFile. rewrite Hnone. simpl.
    pose proof (loadFromStream_failed (mkIStream EmptyString false true) eq_refl) as H.
    by destruct (loadFromStream _) as [[npc|] s'].
  - intros filename fs ws Hfile Hblank. unfold loadFromFile. rewrite Hfile. simpl.
    pose proof (loadFromStream_end ws Hblank) as H.
    by destruct (loadFromStream _) as [[npc|] s'].
Qed.

(** A witness of [X10_load_of_nothing]: no file at all, and a file of two
    line ends. *)
Lemma X10_load_witness :
  loadFromFile "f" empty_fs = Some [] /\
  loadFromFile "f" (file_f (endl +:+ endl)) = Some [].
Proof.
  split.
  - apply (proj1 (proj2 X10_load_of_nothing) "f" empty_fs). reflexivity.
  - apply (proj2 (proj2 X10_load_of_nothing) "f" (file_f (endl +:+ endl)) (endl +:+ endl));
      reflexivity.
Defined.

Lemma span_forallb p s : string_forallb p (fst (span p s)) = true.
Proof.
  induction s as [|c s IH]; [done|]. simpl.
  destruct (p c) eqn:Hc; [|done].
  destruct (span p s) as [t r]. simpl in *. by rewrite Hc, IH.
Qed.

(** What [in >> str] stores is a token: not empty, without whitespace. *)
Lemma extract_string_is_token s tok s' :
  extract_string s = (Some tok, s') -> token_name tok.
Proof.
  unfold extract_string.
  destruct (sentry s) as [[] s1] eqn:Hsentry; [|discriminate].
  apply sentry_ok in Hsentry as (c & r & Hbuf & Hc & _). rewrite Hbuf.
  pose proof (span_forallb (fun c => negb (isspace c)) (String c r)) as Hall.
  destruct (span _ (String c r)) as [t rest] eqn:Hspan.
  intros [= <- <-]. split; [|exact Hall].
  simpl in Hspan. rewrite Hc in Hspan. simpl in Hspan.
  destruct (span _ r). by injection Hspan as <- <-.
Qed.

Lemma loadFromStream_savable s npc s' :
  loadFromStream s = (Some npc, s') -> savable npc /\ isAlive npc = true.
Proof.
  intros Hload. pose proof (loadFromStream_some _ _ _ Hload) as (_ & Ha & Hb).
  split; [|done]. split; [|done].
  unfold loadFromStream in Hload.
  destruct (extract_string s) as [typeStr s1].
  destruct (extract_string s1) as [name s2] eqn:Hname.
  destruct (extract_int s2) as [x s3].
  destruct (extract_int s3) as [y s4].
  destruct (failbit s4); [discriminate|].
  destruct typeStr, name, x, y; try discriminate.
  destruct (type_of_keyword _); [|discriminate].
  destruct (bad_coords _ _); [discriminate|].
  injection Hload as <- <-. simpl. by eapply extract_string_is_token.
Qed.

Lemma load_loop_savable fuel s acc loaded :
  Forall (fun n => savable n /\ isAlive n = true) acc ->
  load_loop fuel s acc = Some loaded ->
  Forall (fun n => savable n /\ isAlive n = true) loaded.
Proof.
  revert s acc. induction fuel as [|fuel IH]; intros s acc Hacc; [done|].
  simpl. destruct (loadFromStream s) as [[npc|] s'] eqn:Hload.
  - apply IH. apply Forall_app. split; [done|].
    apply loadFromStream_savable in Hload. constructor; [done|constructor].
  - by intros [= <-].
Qed.

(** X11: what [load] has read, [save] writes in a form [load] reads back:
    whatever the file a registry was loaded from, saving it and loading
    the saved file gives the same registry. *)
Theorem X11_load_save_load filename fs loaded target fs' :
  loadFromFile filename fs = Some loaded ->
  fs_writable fs' target = true ->
  loadFromFile target (saveToFile target loaded fs') = Some loaded.
Proof.
  intros Hload Hw. rewrite loadFromFile_saved by done.
  assert (Forall (fun n => savable n /\ isAlive n = true) loaded) as Hall
    by (eapply (load_loop_savable _ _ []); [constructor|exact Hload]).
  rewrite <- (append_nil_l (save_text loaded)) at 2.
  rewrite load_loop_save_text; [| |done|rewrite append_nil_l; lia].
  - simpl. f_equal. apply purge_all_alive.
    eapply Forall_impl; [exact Hall|]. by intros n [_ ?].
  - eapply Forall_impl; [exact Hall|]. by intros n [? _].
Qed.

(** A witness of [X11_load_save_load]: a file with two records on one
    line, a plus sign and leading zeros, followed by a broken record. *)
Lemma X11_untidy_file_witness :
  loadFromFile "g"
    (saveToFile "g" [createNPC KNIGHT "a" 7 0; createNPC DRAGON "b" 500 12] empty_fs) =
    Some [createNPC KNIGHT "a" 7 0; createNPC DRAGON "b" 500 12].
Proof.
  apply (X11_load_save_load "f"
           (file_f "  KNIGHT a +7 000 DRAGON b 500 12 PRINCESS c 1")
           [createNPC KNIGHT "a" 7 0; createNPC DRAGON "b" 500 12] "g" empty_fs).
  - vm_compute. reflexivity.
  - reflexivity.
Defined.

(** ** Records and commands, token by token *)

Lemma isspace_chars c :
  isspace c = true -> isdigit c = false /\ negb (isspace c) = false.
Proof.
  destruct c as [[] [] [] [] [] [] [] []]; vm_compute; intros H;
    try discriminate H; auto.
Qed.

Lemma gap_head ws :
  gap ws -> exists c w, ws = String c w /\ isspace c = true.
Proof.
  intros [Hne Hblank]. destruct ws as [|c w]; [done|].
  exists c, w. split; [done|].
  unfold blank in Hblank. rewrite string_forallb_cons in Hblank.
  by apply andb_prop in Hblank as [-> _].
Qed.

(** What follows a token or a number, when it starts with a gap, ends it. *)
Lemma gap_stops ws rest :
  gap ws ->
  stops (fun c => negb (isspace c)) (ws +:+ rest) /\
  stops isdigit (ws +:+ rest) /\ at_end (ws +:+ rest) = false.
Proof.
  intros (c & w & -> & Hc)%gap_head. rewrite append_cons. simpl.
  destruct (isspace_chars c Hc) as [-> ->]. done.
Qed.

(** The four extractions of [loadFromStream] on four fields separated by
    single spaces: a keyword, a name, two integers. *)
Lemma loadFromStream_fields ws kw name x y rest :
  blank ws -> token_name kw -> token_name name ->
  INT_MIN <= x <= INT_MAX -> INT_MIN <= y <= INT_MAX -> stops isdigit rest ->
  loadFromStream
    (mkIStream (ws +:+ kw +:+ " " +:+ name +:+ " " +:+ show_int x +:+ " " +:+
                show_int y +:+ rest) false false) =
    (match type_of_keyword kw with
     | Some type => if bad_coords x y then None else Some (createNPC type name x y)
     | None => None
     end,
     mkIStream rest (at_end rest) false).
Proof.
  intros Hws Hkw Hname Hx Hy Hrest. unfold loadFromStream.
  rewrite (extract_string_token ws kw); [|done|done|by rewrite space_append].
  rewrite space_append at 1. simpl at_end. rewrite <- space_append.
  rewrite (extract_string_token " " name); [|done|done|by rewrite space_append].
  rewrite space_append at 1. simpl at_end. rewrite <- space_append.
  rewrite (extract_int_show " " x); [|done|done|by rewrite space_append].
  rewrite space_append at 1. simpl at_end. rewrite <- space_append.
  rewrite (extract_int_show " " y); [|done|done|done].
  simpl failbit. cbv iota.
  destruct (type_of_keyword kw); [|done]. by destruct (bad_coords x y).
Qed.

(** X12: the contract of [loadFromStream] on a record in the format of the
    save file: after any whitespace, the four fields are read and nothing
    more; the entity is built when both coordinates are in [0,500] and
    refused otherwise; what follows the last digit stays in the stream,
    whether it is a line end, the end of the file or anything that is not
    a digit. *)
Theorem X12_record_is_read ws type name x y rest :
  blank ws -> token_name name ->
  INT_MIN <= x <= INT_MAX -> INT_MIN <= y <= INT_MAX -> stops isdigit rest ->
  loadFromStream
    (mkIStream (ws +:+ line_text type name x y +:+ rest) false false) =
    (if bad_coords x y then None else Some (createNPC type name x y),
     mkIStream rest (at_end rest) false).
Proof.
  intros Hws Hname Hx Hy Hrest.
  destruct (type_word_spec type) as (Hkw & Hty & Hword).
  unfold line_text. rewrite Hkw, !append_assoc.
  rewrite (loadFromStream_fields ws (type_word type)) by done.
  by rewrite Hty.
Qed.

(** A witness of [X12_record_is_read]: a record at the very end of a file,
    with no line end after it. *)
Lemma X12_last_record_witness :
  loadFromStream
    (mkIStream (endl +:+ line_text DRAGON "d" 500 0 +:+ EmptyString) false false) =
    (if bad_coords 500 0 then None else Some (createNPC DRAGON "d" 500 0),
     mkIStream EmptyString (at_end EmptyString) false).
Proof.
  apply (X12_record_is_read endl DRAGON "d" 500 0 EmptyString);
    try reflexivity; try (split; [discriminate|reflexivity]);
    unfold INT_MIN, INT_MAX; lia.
Defined.

(** X13: the keywords of the save file are matched exactly: a record whose
    first field is any other token, the lower-case kind words of the [add]
    command included, is refused although the rest of it is well formed. *)
Theorem X13_unknown_keyword_is_refused ws kw name x y rest :
  blank ws -> token_name kw -> type_of_keyword kw = None -> token_name name ->
  INT_MIN <= x <= INT_MAX -> INT_MIN <= y <= INT_MAX -> stops isdigit rest ->
  loadFromStream
    (mkIStream (ws +:+ kw +:+ " " +:+ name +:+ " " +:+ show_int x +:+ " " +:+
                show_int y +:+ rest) false false) =
    (None, mkIStream rest (at_end rest) false).
Proof.
  intros Hws Hkw Hnone Hname Hx Hy Hrest.
  rewrite (loadFromStream_fields ws kw) by done. by rewrite Hnone.
Qed.

(** A witness of [X13_unknown_keyword_is_refused]: the kind word of
    [add knight]. *)
Lemma X13_lower_case_witness :
  loadFromStream
    (mkIStream (EmptyString +:+ type_name KNIGHT +:+ " " +:+ "k" +:+ " " +:+
                show_int 1 +:+ " " +:+ show_int 2 +:+ endl) false false) =
    (None, mkIStream endl (at_end endl) false).
Proof.
  apply (X13_unknown_keyword_is_refused EmptyString (type_name KNIGHT) "k" 1 2 endl);
    try reflexivity; try (split; [discriminate|reflexivity]);
    unfold INT_MIN, INT_MAX; lia.
Defined.

Lemma type_name_spec type :
  type_of_word (type_name type) = Some type /\ token_name (type_name type).
Proof. by destruct type. Qed.

(** The body of the loop for [add] on four well-formed arguments. *)
Lemma command_body_add g st word name x y ws1 ws2 ws3 ws4 rest :
  cin st = mkIStream (ws1 +:+ word +:+ ws2 +:+ name +:+ ws3 +:+ show_int x +:+
                      ws4 +:+ show_int y +:+ rest) false false ->
  blank ws1 -> gap ws2 -> gap ws3 -> gap ws4 ->
  token_name word -> token_name name ->
  INT_MIN <= x <= INT_MAX -> INT_MIN <= y <= INT_MAX -> stops isdigit rest ->
  command_body g "add" st =
    match type_of_word word with
    | None =>
        Some (false, mkProcess (mkIStream rest (at_end rest) false)
                       (cout st ++ [unknown_npc_msg]) (files st) (dungeon st))
    | Some type =>
        Some (false, mkProcess (mkIStream rest (at_end rest) false)
                       (cout st ++ snd (addNPC type name x y (dungeon st)))
                       (files st)
                       (fst (addNPC type name x y (dungeon st))))
    end.
Proof.
  intros Hcin Hws1 Hws2 Hws3 Hws4 Hword Hname Hx Hy Hrest.
  unfold command_body. rewrite String.eqb_refl, Hcin.
  destruct (gap_stops ws2 (name +:+ ws3 +:+ show_int x +:+ ws4 +:+ show_int y +:+ rest) Hws2)
    as (Hs2 & _ & He2).
  destruct (gap_stops ws3 (show_int x +:+ ws4 +:+ show_int y +:+ rest) Hws3)
    as (Hs3 & _ & He3).
  destruct (gap_stops ws4 (show_int y +:+ rest) Hws4) as (_ & Hs4 & He4).
  rewrite (extract_string_token ws1 word) by done. rewrite He2.
  rewrite (extract_string_token ws2 name) by (try done; apply Hws2). rewrite He3.
  rewrite (extract_int_show ws3 x) by (try done; apply Hws3). rewrite He4.
  rewrite (extract_int_show ws4 y) by (try done; apply Hws4).
  simpl default. destruct (type_of_word word); [|done].
  by destruct (addNPC _ _ _ _ _).
Qed.

(** X14: the [add] command on a kind word, a name and two integers,
    separated by any whitespace, is [addNPC] on exactly these arguments:
    the registry and the console change as [addNPC] says, the four
    arguments are consumed and what follows them is left to be read. *)
Theorem X14_add_command g st type name x y ws1 ws2 ws3 ws4 rest :
  cin st = mkIStream (ws1 +:+ type_name type +:+ ws2 +:+ name +:+ ws3 +:+
                      show_int x +:+ ws4 +:+ show_int y +:+ rest) false false ->
  blank ws1 -> gap ws2 -> gap ws3 -> gap ws4 -> token_name name ->
  INT_MIN <= x <= INT_MAX -> INT_MIN <= y <= INT_MAX -> stops isdigit rest ->
  command_body g "add" st =
    Some (false, mkProcess (mkIStream rest (at_end rest) false)
                   (cout st ++ snd (addNPC type name x y (dungeon st)))
                   (files st)
                   (fst (addNPC type name x y (dungeon st)))).
Proof.
  intros Hcin Hws1 Hws2 Hws3 Hws4 Hname Hx Hy Hrest.
  destruct (type_name_spec type) as [Hty Hword].
  rewrite (command_body_add g st (type_name type) name x y ws1 ws2 ws3 ws4 rest)
    by done.
  by rewrite Hty.
Qed.

(** A witness of [X14_add_command]: " dragon  Smaug 10 -3" followed by a
    line end and a [print]; the negative coordinate reaches [addNPC]. *)
Lemma X14_add_witness :
  command_body no_garbage "add"
    (mkProcess
       (mkIStream (" " +:+ type_name DRAGON +:+ "  " +:+ "Smaug" +:+ " " +:+
                   show_int 10 +:+ " " +:+ show_int (-3) +:+ endl +:+ "print")
          false false)
       [prompt] empty_fs []) =
  Some (false,
        mkProcess (mkIStream (endl +:+ "print") (at_end (endl +:+ "print")) false)
          ([prompt] ++ snd (addNPC DRAGON "Smaug" 10 (-3) []))
          empty_fs
          (fst (addNPC DRAGON "Smaug" 10 (-3) []))).
Proof.
  apply (X14_add_command no_garbage
           (mkProcess
              (mkIStream (" " +:+ type_name DRAGON +:+ "  " +:+ "Smaug" +:+ " " +:+
                          show_int 10 +:+ " " +:+ show_int (-3) +:+ endl +:+ "print")
                 false false)
              [prompt] empty_fs [])
           DRAGON "Smaug" 10 (-3) " " "  " " " " " (endl +:+ "print"));
    try reflexivity; try (split; [discriminate|reflexivity]);
    unfold INT_MIN, INT_MAX; lia.
Defined.

(** X15: the [add] command with a kind word it does not know, the
    upper-case keywords of the save file included, writes the error line
    and leaves the registry as it was; its four arguments are consumed all
    the same, so they are not taken for commands. *)
Theorem X15_add_unknown_kind g st word name x y ws1 ws2 ws3 ws4 rest :
  cin st = mkIStream (ws1 +:+ word +:+ ws2 +:+ name +:+ ws3 +:+
                      show_int x +:+ ws4 +:+ show_int y +:+ rest) false false ->
  blank ws1 -> gap ws2 -> gap ws3 -> gap ws4 ->
  token_name word -> type_of_word word = None -> token_name name ->
  INT_MIN <= x <= INT_MAX -> INT_MIN <= y <= INT_MAX -> stops isdigit rest ->
  command_body g "add" st =
    Some (false, mkProcess (mkIStream rest (at_end rest) false)
                   (cout st ++ [unknown_npc_msg]) (files st) (dungeon st)).
Proof.
  intros Hcin Hws1 Hws2 Hws3 Hws4 Hword Hnone Hname Hx Hy Hrest.
  rewrite (command_body_add g st word name x y ws1 ws2 ws3 ws4 rest) by done.
  by rewrite Hnone.
Qed.

(** A witness of [X15_add_unknown_kind]: the keyword of the save file. *)
Lemma X15_upper_case_witness :
  command_body no_garbage "add"
    (mkProcess
       (mkIStream (" " +:+ type_word KNIGHT +:+ " " +:+ "print" +:+ " " +:+
                   show_int 1 +:+ " " +:+ show_int 2 +:+ EmptyString)
          false false)
       [] empty_fs two_knights) =
  Some (false,
        mkProcess (mkIStream EmptyString (at_end EmptyString) false)
          ([] ++ [unknown_npc_msg]) empty_fs two_knights).
Proof.
  apply (X15_add_unknown_kind no_garbage
           (mkProcess
              (mkIStream (" " +:+ type_word KNIGHT +:+ " " +:+ "print" +:+ " " +:+
                          show_int 1 +:+ " " +:+ show_int 2 +:+ EmptyString)
                 false false)
              [] empty_fs two_knights)
           (type_word KNIGHT) "print" 1 2 " " " " " " " " EmptyString);
    try reflexivity; try (split; [discriminate|reflexivity]);
    unfold INT_MIN, INT_MAX; lia.
Defined.

(** ** The loop on a failed stream *)

(** Once failbit is set the loop writes its prompt and is left: nothing
    more is read, and the dungeon and the files stay as they are. *)
Lemma command_loop_failed fuel g st :
  failbit (cin st) = true ->
  command_loop (S fuel) g st =
    Some (ByFailedRead,
          mkProcess (mkIStream (buf (cin st)) (eofbit (cin st)) true)
            (cout st ++ [prompt]) (files st) (dungeon st)).
Proof.
  intros Hfail. simpl. unfold extract_string. by rewrite sentry_sticky.
Qed.

Lemma not_numeric_spec c :
  not_numeric c = true ->
  isdigit c = false /\ isspace c = false /\ Ascii.eqb c "-" = false /\
  Ascii.eqb c "+" = false /\ Ascii.eqb c "." = false.
Proof.
  unfold not_numeric. intros H%negb_true_iff.
  repeat (apply orb_false_elim in H as [H ?]). auto.
Qed.

(** [in >> d] on a token that does not start a number: 0 is stored, nothing
    is consumed, failbit is set. *)
Lemma extract_double_not_numeric ws c r :
  blank ws -> not_numeric c = true ->
  extract_double (mkIStream (ws +:+ String c r) false false) =
    (Some PrimFloat.zero, mkIStream (String c r) false true).
Proof.
  intros Hws (Hd & Hs & Hminus & Hplus & Hpoint)%not_numeric_spec.
  unfold extract_double, sentry. stream_fields.
  rewrite (skipws_app ws _ Hws), (skipws_stop c r Hs). stream_fields.
  unfold take_sign. rewrite Hminus, Hplus. simpl span. rewrite Hd.
  unfold take_fraction. rewrite Hpoint. by simpl.
Qed.

(** X16: a [battle] command whose argument does not start a number still
    runs a battle, with range 0, and then ends the loop: the prompt is
    written once more, the bad token and everything after it stay unread,
    and no later command is executed. *)
Theorem X16_battle_with_a_bad_range fuel g st ws1 ws2 c r :
  cin st = mkIStream (ws1 +:+ "battle" +:+ ws2 +:+ String c r) false false ->
  blank ws1 -> gap ws2 -> not_numeric c = true ->
  command_loop (S (S fuel)) g st =
    Some (ByFailedRead,
          mkProcess (mkIStream (String c r) false true)
            (cout st ++ [prompt] ++ snd (battle PrimFloat.zero (dungeon st)) ++ [prompt])
            (files st)
            (fst (battle PrimFloat.zero (dungeon st)))).
Proof.
  intros Hcin Hws1 Hws2 Hc.
  destruct (gap_stops ws2 (String c r) Hws2) as (Hs2 & _ & He2).
  change (command_loop (S (S fuel)) g st) with
    (let st1 := say [prompt] st in
     let (command, c1) := extract_string (cin st1) in
     let st2 := mkProcess c1 (cout st1) (files st1) (dungeon st1) in
     if failbit c1 then Some (ByFailedRead, st2)
     else match command_body g (default EmptyString command) st2 with
          | Some (true, st3) => Some (ByExit, st3)
          | Some (false, st3) => command_loop (S fuel) g st3
          | None => None
          end).
  cbv zeta. simpl cin. rewrite Hcin.
  rewrite (extract_string_token ws1 "battle")
    by first [done|split; [discriminate|reflexivity]].
  rewrite He2. simpl failbit. cbv iota. simpl default.
  unfold command_body.
  change (String.eqb "battle" "add") with false.
  change (String.eqb "battle" "print") with false.
  change (String.eqb "battle" "save") with false.
  change (String.eqb "battle" "load") with false.
  change (String.eqb "battle" "battle") with true.
  cbv iota. simpl cin.
  rewrite (extract_double_not_numeric ws2 c r) by (try done; apply Hws2).
  simpl default.
  cbn [say cin cout files dungeon].
  destruct (battle PrimFloat.zero (dungeon st)) as [npcs out].
  rewrite command_loop_failed by done.
  cbn [say cin cout files dungeon buf eofbit fst snd].
  by rewrite <- !app_assoc.
Qed.

(** A witness of [X16_battle_with_a_bad_range]: a dragon and a princess on
    one cell, and the command "battle far"; the princess dies. *)
Lemma X16_battle_far_witness :
  command_loop 2 no_garbage
    (mkProcess (mkIStream (EmptyString +:+ "battle" +:+ " " +:+ String "f" "ar exit")
                  false false)
       [] empty_fs dragon_and_princess) =
  Some (ByFailedRead,
        mkProcess (mkIStream (String "f" "ar exit") false true)
          ([] ++ [prompt] ++ snd (battle PrimFloat.zero dragon_and_princess) ++ [prompt])
          empty_fs
          (fst (battle PrimFloat.zero dragon_and_princess))).
Proof.
  apply (X16_battle_with_a_bad_range 0 no_garbage
           (mkProcess (mkIStream (EmptyString +:+ "battle" +:+ " " +:+ String "f" "ar exit")
                         false false)
              [] empty_fs dragon_and_princess)
           EmptyString " " "f" "ar exit");
    try reflexivity. split; [discriminate|reflexivity].
Defined.

(** X17: [exit] leaves the loop at once: the prompt has been written, the
    word is consumed, and whatever follows it in the input is left unread;
    the dungeon and the files are as they were. *)
Theorem X17_exit_leaves_the_rest_unread fuel g st ws rest :
  cin st = mkIStream (ws +:+ "exit" +:+ rest) false false ->
  blank ws -> stops (fun c => negb (isspace c)) rest ->
  command_loop (S fuel) g st =
    Some (ByExit,
          mkProcess (mkIStream rest (at_end rest) false)
            (cout st ++ [prompt]) (files st) (dungeon st)).
Proof.
  intros Hcin Hws Hrest. simpl. rewrite Hcin.
  rewrite (extract_string_token ws "exit")
    by first [done|split; [discriminate|reflexivity]].
  reflexivity.
Qed.

(** A witness of [X17_exit_leaves_the_rest_unread]: "exit" with a command
    after it. *)
Lemma X17_exit_witness :
  command_loop 1 no_garbage
    (mkProcess (mkIStream (endl +:+ "exit" +:+ " add knight K 0 0") false false)
       [] empty_fs two_knights) =
  Some (ByExit,
        mkProcess (mkIStream " add knight K 0 0" (at_end " add knight K 0 0") false)
          ([] ++ [prompt]) empty_fs two_knights).
Proof.
  apply (X17_exit_leaves_the_rest_unread 0 no_garbage
           (mkProcess (mkIStream (endl +:+ "exit" +:+ " add knight K 0 0") false false)
              [] empty_fs two_knights)
           endl " add knight K 0 0"); reflexivity.
Defined.

(** ** Distances *)

(** X18: the distance test does not depend on which of the two entities
    measures, and two entities on the same cell are within any range that
    is at least 0. *)
Theorem X18_distance_test :
  (forall a b, distanceTo a b = distanceTo b a) /\
  (forall a b range, in_range a b range = in_range b a range) /\
  (forall a b range,
     getX a = getX b -> getY a = getY b ->
     in_range a b range = PrimFloat.leb PrimFloat.zero range).
Proof.
  split; [|split; [exact in_range_sym|]].
  - intros a b. unfold distanceTo, pow2.
    replace (Z.abs (getX b - getX a)) with (Z.abs (getX a - getX b)) by lia.
    replace (Z.abs (getY b - getY a)) with (Z.abs (getY a - getY b)) by lia.
    reflexivity.
  - intros a b range Hx Hy. unfold in_range, distanceTo.
    rewrite Hx, Hy, !Z.sub_diag. reflexivity.
Qed.

(** A witness of [X18_distance_test]: a knight and a dragon at (250,250),
    under range 0. *)
Lemma X18_same_cell_witness :
  in_range (createNPC KNIGHT "K" 250 250) (createNPC DRAGON "D" 250 250) 0%float =
    PrimFloat.leb PrimFloat.zero 0%float.
Proof.
  apply (proj2 (proj2 X18_distance_test)); reflexivity.
Defined.

(** ** Save files *)

Lemma load_saved_text npcs :
  Forall (fun n => savable n /\ isAlive n = true) npcs ->
  load_loop (S (String.length (save_text npcs)))
    (mkIStream (save_text npcs) false false) [] = Some npcs.
Proof.
  intros Hall. rewrite <- (append_nil_l (save_text npcs)) at 2.
  rewrite load_loop_save_text; [| |done|rewrite append_nil_l; lia].
  - simpl. f_equal. apply purge_all_alive.
    eapply Forall_impl; [exact Hall|]. by intros n [_ ?].
  - eapply Forall_impl; [exact Hall|]. by intros n [? _].
Qed.

(** X19: the save file determines the registry: two registries of alive
    entities with token names and coordinates in [0,500] that are saved as
    the same text are the same registry. *)
Theorem X19_save_text_is_injective npcs1 npcs2 :
  Forall (fun n => savable n /\ isAlive n = true) npcs1 ->
  Forall (fun n => savable n /\ isAlive n = true) npcs2 ->
  save_text npcs1 = save_text npcs2 -> npcs1 = npcs2.
Proof.
  intros H1 H2 Heq.
  pose proof (load_saved_text npcs1 H1) as L1.
  pose proof (load_saved_text npcs2 H2) as L2.
  rewrite Heq, L2 in L1. by injection L1.
Qed.

(** A witness of [X19_save_text_is_injective]: one knight. *)
Lemma X19_one_knight_witness :
  [createNPC KNIGHT "K" 1 2] = [createNPC KNIGHT "K" 1 2].
Proof.
  apply X19_save_text_is_injective; try reflexivity;
    repeat constructor; discriminate.
Defined.

(** ** What the console reports *)

Lemma accept_reports range npcs self other st :
  Forall2 frame npcs (arena_npcs st) ->
  Forall (reports_kill range npcs) (arena_cout st) ->
  Forall (reports_kill range npcs) (arena_cout (accept range self other st)).
Proof.
  intros Hframe Hlog.
  destruct (accept_cases range self other st)
    as [->|(s & o & Hs & Ho & Ha & Hr & Hk & ->)]; [done|].
  simpl. apply Forall_app. split; [done|]. constructor; [|constructor].
  destruct (Forall2_frame_lookup_r _ _ self s Hframe Hs) as (a & Ha0 & Hfa).
  destruct (Forall2_frame_lookup_r _ _ other o Hframe Ho) as (b & Hb0 & Hfb).
  exists self, other, a, b. split; [done|]. split; [done|]. split.
  { intros ->. rewrite Hs in Ho. injection Ho as ->.
    by apply kills_irrefl_types in Hk. }
  split.
  { unfold onKill. simpl.
    destruct Hfa as (_ & -> & _), Hfb as (_ & -> & _). done. }
  split; [by apply Hfb|].
  rewrite (in_range_frame a s b o) by done.
  destruct Hfa as (-> & _), Hfb as (-> & _). done.
Qed.

Lemma inner_loop_reports range npcs i js st :
  Forall2 frame npcs (arena_npcs st) ->
  Forall (reports_kill range npcs) (arena_cout st) ->
  Forall (reports_kill range npcs) (arena_cout (inner_loop range i js st)).
Proof.
  revert st. induction js as [|j js IH]; intros st Hframe Hlog; simpl; [done|].
  destruct (alive_at j st); [|by apply IH].
  apply IH.
  - eapply Forall2_frame_trans; [exact Hframe|apply pair_step_frame].
  - unfold pair_step. apply accept_reports.
    + eapply Forall2_frame_trans; [exact Hframe|apply accept_frame].
    + by apply accept_reports.
Qed.

Lemma outer_loop_reports range npcs size idx st :
  Forall2 frame npcs (arena_npcs st) ->
  Forall (reports_kill range npcs) (arena_cout st) ->
  Forall (reports_kill range npcs) (arena_cout (outer_loop range size idx st)).
Proof.
  revert st. induction idx as [|i idx IH]; intros st Hframe Hlog; simpl; [done|].
  destruct (alive_at i st); [|by apply IH].
  apply IH.
  - eapply Forall2_frame_trans; [exact Hframe|apply inner_loop_frame].
  - by apply inner_loop_reports.
Qed.

(** X20: every line a battle writes reports a kill of the registry it
    started from: it names a killer and a victim that are two distinct
    entities of that registry, the victim alive when the battle started
    and within range of the killer, the kinds matching the rule table. *)
Theorem X20_every_line_reports_a_kill range npcs :
  Forall (reports_kill range npcs) (snd (battle range npcs)).
Proof.
  unfold battle. simpl. apply outer_loop_reports; [apply Forall2_frame_refl|].
  constructor.
Qed.

(** ** Arguments that are not numbers *)

(** [in >> n] on a token that does not start a number: 0 is stored, nothing
    is consumed, failbit is set. *)
Lemma extract_int_not_numeric ws c r :
  blank ws -> not_numeric c = true ->
  extract_int (mkIStream (ws +:+ String c r) false false) =
    (Some 0, mkIStream (String c r) false true).
Proof.
  intros Hws (Hd & Hs & Hminus & Hplus & _)%not_numeric_spec.
  unfold extract_int, sentry. stream_fields.
  rewrite (skipws_app ws _ Hws), (skipws_stop c r Hs). stream_fields.
  unfold take_sign. rewrite Hminus, Hplus. simpl span. by rewrite Hd.
Qed.

(** X21: an [add] command whose x is not a number still calls [addNPC]:
    with 0 for x, as the failed extraction stores it, and for y with
    whatever the uninitialised local holds, since y is not read any more.
    The entity is added if that value happens to lie in [0,500]; the bad
    token stays unread and failbit is set. *)
Theorem X21_add_with_a_bad_x g st type name ws1 ws2 ws3 c r :
  cin st = mkIStream (ws1 +:+ type_name type +:+ ws2 +:+ name +:+ ws3 +:+
                      String c r) false false ->
  blank ws1 -> gap ws2 -> gap ws3 -> token_name name -> not_numeric c = true ->
  command_body g "add" st =
    Some (false, mkProcess (mkIStream (String c r) false true)
                   (cout st ++ snd (addNPC type name 0 (ind_y g) (dungeon st)))
                   (files st)
                   (fst (addNPC type name 0 (ind_y g) (dungeon st)))).
Proof.
  intros Hcin Hws1 Hws2 Hws3 Hname Hc.
  destruct (type_name_spec type) as [Hty Hword].
  unfold command_body. rewrite String.eqb_refl, Hcin.
  destruct (gap_stops ws2 (name +:+ ws3 +:+ String c r) Hws2) as (Hs2 & _ & He2).
  destruct (gap_stops ws3 (String c r) Hws3) as (Hs3 & _ & He3).
  rewrite (extract_string_token ws1 (type_name type)) by done. rewrite He2.
  rewrite (extract_string_token ws2 name) by (try done; apply Hws2). rewrite He3.
  rewrite (extract_int_not_numeric ws3 c r) by (try done; apply Hws3).
  unfold extract_int at 1. rewrite sentry_sticky by done.
  simpl default. rewrite Hty. cbn [buf eofbit].
  by destruct (addNPC _ _ _ _ _).
Qed.

(** A witness of [X21_add_with_a_bad_x]: "add knight bob abc 5" when the
    uninitialised [y] holds 7: a knight appears at (0,7). *)
Lemma X21_bob_witness :
  command_body (mkIndeterminate 0 7 PrimFloat.zero) "add"
    (mkProcess (mkIStream (" " +:+ type_name KNIGHT +:+ " " +:+ "bob" +:+ " " +:+
                           String "a" "bc 5") false false)
       [] empty_fs []) =
  Some (false,
        mkProcess (mkIStream (String "a" "bc 5") false true)
          ([] ++ snd (addNPC KNIGHT "bob" 0 7 []))
          empty_fs
          (fst (addNPC KNIGHT "bob" 0 7 []))).
Proof.
  apply (X21_add_with_a_bad_x (mkIndeterminate 0 7 PrimFloat.zero)
           (mkProcess (mkIStream (" " +:+ type_name KNIGHT +:+ " " +:+ "bob" +:+ " " +:+
                                  String "a" "bc 5") false false)
              [] empty_fs [])
           KNIGHT "bob" " " " " " " "a" "bc 5");
    try reflexivity; split; first [discriminate|reflexivity].
Defined.

(** ** The end of the input *)

(** X22: on an input that is empty or holds nothing but whitespace, [main]
    writes the prompt once, finds the end of the input, and returns 0 with
    an empty dungeon; only "log.txt" may have been created. *)
Theorem X22_main_on_blank_input g fs ws :
  blank ws ->
  main g fs ws =
    Some (0, ByFailedRead,
          mkProcess (mkIStream EmptyString true true) [prompt] (open_log fs) []).
Proof.
  intros Hws. unfold main. simpl. unfold extract_string, sentry. stream_fields.
  by rewrite (skipws_all_space ws Hws).
Qed.

(** A witness of [X22_main_on_blank_input]: an input of one line end. *)
Lemma X22_blank_input_witness :
  main no_garbage locked_fs endl =
    Some (0, ByFailedRead,
          mkProcess (mkIStream EmptyString true true) [prompt] (open_log locked_fs) []).
Proof. apply (X22_main_on_blank_input no_garbage locked_fs endl). reflexivity. Defined.

(** * The claims on the pair, on add, on load and on the loop *)

(** ** One pair, both directions *)

(** One visit in full: it strikes exactly when the other entity is alive
    in the arena the visit runs on, is within range, and is of a kind the
    visitor's kind kills. *)
Lemma accept_spec range self other st s o :
  arena_npcs st !! self = Some s -> arena_npcs st !! other = Some o ->
  accept range self other st =
    if isAlive o && in_range s o range && kills (getType s) (getType o)
    then mkArena (alter markDead other (arena_npcs st))
                 (arena_cout st ++ [onKill s o])
    else st.
Proof.
  intros Hs Ho.
  destruct (isAlive o && in_range s o range && kills (getType s) (getType o)) eqn:Hc.
  - apply andb_prop in Hc as [[Ha Hr]%andb_prop Hk]. by apply accept_kills.
  - destruct (accept_cases range self other st)
      as [|(s' & o' & Hs' & Ho' & Ha & Hr & Hk & _)]; [done|].
    rewrite Hs in Hs'. injection Hs' as <-. rewrite Ho in Ho'. injection Ho' as <-.
    by rewrite Ha, Hr, Hk in Hc.
Qed.

(** C3: the pair is resolved as the visit of [i] with [j] as other, then the
    visit of [j] with [i] as other on the arena the first visit left.  Each
    visit strikes exactly when the other entity is alive in the arena it
    runs on, within range and of a kind the visitor kills; the alive flag
    it reads is that of the other, the prospective victim.  So when the
    first visit killed [j], the second does nothing: [i] keeps its alive
    flag and no line is written for it.  When the first visit does not
    strike and [j] kills the kind of [i], the second visit kills [i]; and
    when [i] is dead, the second visit does nothing. *)
Theorem C3_killed_victim_cannot_kill_back :
  (forall range i j st,
     pair_step range i j st = accept range j i (accept range i j st)) /\
  (forall range self other st s o,
     arena_npcs st !! self = Some s -> arena_npcs st !! other = Some o ->
     accept range self other st =
       if isAlive o && in_range s o range && kills (getType s) (getType o)
       then mkArena (alter markDead other (arena_npcs st))
                    (arena_cout st ++ [onKill s o])
       else st) /\
  (forall range i j st,
     alive_at j st = true ->
     alive_at j (accept range i j st) = false ->
     pair_step range i j st = accept range j i (accept range i j st) /\
     accept range j i (accept range i j st) = accept range i j st /\
     alive_at i (pair_step range i j st) = alive_at i st /\
     arena_cout (pair_step range i j st) = arena_cout (accept range i j st)) /\
  (forall range i j st a b,
     i <> j -> arena_npcs st !! i = Some a -> arena_npcs st !! j = Some b ->
     isAlive a = true -> in_range a b range = true ->
     kills (getType b) (getType a) = true ->
     pair_step range i j st =
       mkArena (alter markDead i (arena_npcs st)) (arena_cout st ++ [onKill b a])) /\
  (forall range i j st a,
     i <> j -> arena_npcs st !! i = Some a -> isAlive a = false ->
     pair_step range i j st = accept range i j st).
Proof.
  split; [done|]. split; [exact accept_spec|]. split; [|split].
  - intros range i j st Hj Hj'.
    assert (accept range j i (accept range i j st) = accept range i j st /\
            alive_at i (accept range i j st) = alive_at i st) as [Hback Hi].
    { destruct (accept_cases range i j st)
        as [Heq|(s & o & Hs & Ho & Ha & Hr & Hk & Heq)].
      { rewrite Heq in Hj'. congruence. }
      assert (i <> j) as Hij.
      { intros ->. rewrite Hs in Ho. injection Ho as ->.
        by destruct (getType o). }
      rewrite Heq. split.
      - eapply accept_noop; simpl.
        + rewrite list_lookup_alter_eq, Ho. reflexivity.
        + rewrite list_lookup_alter_ne by done. exact Hs.
        + intros _. simpl. by destruct (getType s), (getType o).
      - unfold alive_at. simpl. by rewrite list_lookup_alter_ne. }
    unfold pair_step. rewrite Hback. auto.
  - intros range i j st a b Hij Ha Hb Halive Hr Hk. unfold pair_step.
    rewrite (accept_noop range i j st a b Ha Hb)
      by (intros _; by destruct (getType a), (getType b)).
    apply accept_kills; try done. by rewrite in_range_sym.
  - intros range i j st a Hij Ha Hdead. unfold pair_step.
    set (st1 := accept range i j st).
    assert (arena_npcs st1 !! i = Some a) as Ha1.
    { subst st1. destruct (accept_cases range i j st)
        as [->|(s & o & _ & _ & _ & _ & _ & ->)]; [done|].
      simpl. by rewrite list_lookup_alter_ne by done. }
    destruct (accept_cases range j i st1)
      as [|(s & o & _ & Ho & Halive & _)]; [done|].
    rewrite Ha1 in Ho. injection Ho as <-. congruence.
Qed.

(** The pair Knight, Dragon of the first scenario, where the knight kills
    the dragon, which then visits in vain; and the pair Dragon, Knight of
    the second scenario, where the dragon visits in vain and the knight,
    visiting second, kills it; and a dead princess with a dragon, which
    visits second and does not strike her again. *)
Lemma C3_knight_dragon_witness :
  (pair_step 0%float 0 1 (mkArena scenario_K_Dr_Pr []) =
     accept 0%float 1 0 (accept 0%float 0 1 (mkArena scenario_K_Dr_Pr [])) /\
   accept 0%float 1 0 (accept 0%float 0 1 (mkArena scenario_K_Dr_Pr [])) =
     accept 0%float 0 1 (mkArena scenario_K_Dr_Pr []) /\
   alive_at 0 (pair_step 0%float 0 1 (mkArena scenario_K_Dr_Pr [])) =
     alive_at 0 (mkArena scenario_K_Dr_Pr []) /\
   arena_cout (pair_step 0%float 0 1 (mkArena scenario_K_Dr_Pr [])) =
     arena_cout (accept 0%float 0 1 (mkArena scenario_K_Dr_Pr []))) /\
  pair_step 0%float 0 1 (mkArena scenario_Dr_K_Pr []) =
    mkArena (alter markDead 0%nat scenario_Dr_K_Pr)
      ([] ++ [onKill (at_origin KNIGHT "K") (at_origin DRAGON "Dr")]) /\
  pair_step 0%float 0 1
    (mkArena [markDead (at_origin PRINCESS "Pr"); at_origin DRAGON "Dr"] []) =
    accept 0%float 0 1
      (mkArena [markDead (at_origin PRINCESS "Pr"); at_origin DRAGON "Dr"] []).
Proof.
  destruct C3_killed_victim_cannot_kill_back as (_ & _ & Hback & Hsecond & Hdead).
  split; [|split].
  - apply (Hback 0%float 0%nat 1%nat (mkArena scenario_K_Dr_Pr []));
      vm_compute; reflexivity.
  - apply (Hsecond 0%float 0%nat 1%nat (mkArena scenario_Dr_K_Pr [])
             (at_origin DRAGON "Dr") (at_origin KNIGHT "K"));
      first [reflexivity|discriminate].
  - apply (Hdead 0%float 0%nat 1%nat
             (mkArena [markDead (at_origin PRINCESS "Pr"); at_origin DRAGON "Dr"] [])
             (markDead (at_origin PRINCESS "Pr")));
      first [reflexivity|discriminate].
Defined.

(** ** add, and what the list shows *)

Lemma print_line_shows_kind a b :
  print_line a = print_line b -> getType a = getType b.
Proof.
  intros H. apply (f_equal (String.get 1)) in H. unfold print_line in H.
  destruct (getType a), (getType b); try reflexivity; lazy in H; discriminate.
Qed.

(** C5: [addNPC] with a coordinate outside [0,500] writes one line, the
    error text of the source, and returns the registry as it was; with both
    coordinates inside, it writes nothing and appends exactly the entity
    constructed from the arguments, and [print] then ends with the line of
    that entity: the word of its kind, its name, and the decimal text of
    [x] and [y].  The three kind words are those of the source and differ
    from one another, so the line tells the kind. *)
Theorem C5_add_checks_the_coordinates :
  (forall type name x y npcs,
     ~ (0 <= x <= 500 /\ 0 <= y <= 500) ->
     addNPC type name x y npcs = (npcs, [bad_coords_msg])) /\
  (forall type name x y npcs,
     0 <= x <= 500 -> 0 <= y <= 500 ->
     addNPC type name x y npcs = (npcs ++ [createNPC type name x y], []) /\
     print (fst (addNPC type name x y npcs)) =
       print npcs ++
       [type_label type +:+ " " +:+ name +:+ " at (" +:+ show_int x +:+ ", " +:+
        show_int y +:+ ")" +:+ endl] /\
     digits_value (show_int x) 0 = x /\ digits_value (show_int y) 0 = y) /\
  bad_coords_msg = "Неверные координаты!" +:+ endl /\
  (type_label PRINCESS = "Принцесса" /\ type_label DRAGON = "Дракон" /\
   type_label KNIGHT = "Рыцарь") /\
  (forall type1 type2, type_label type1 = type_label type2 -> type1 = type2) /\
  (forall a b, print_line a = print_line b -> getType a = getType b) /\
  (forall type name x y npcs,
     0 <= x <= 500 -> 0 <= y <= 500 ->
     string_forallb isdigit (show_int x) = true /\
     string_forallb isdigit (show_int y) = true /\
     last (print (fst (addNPC type name x y npcs))) =
       Some (print_line (createNPC type name x y))).
Proof.
  split; [|split; [|split; [reflexivity|split; [done|split; [|split]]]]].
  - intros type name x y npcs Hout. unfold addNPC.
    destruct (bad_coords x y) eqn:Hb; [done|].
    apply bad_coords_false in Hb. contradiction.
  - intros type name x y npcs Hx Hy. unfold addNPC.
    replace (bad_coords x y) with false
      by (symmetry; by apply bad_coords_false).
    split; [done|]. split; [cbn [fst]; by rewrite print_app|].
    unfold show_int.
    replace (x <? 0) with false by (symmetry; apply Z.ltb_ge; lia).
    replace (y <? 0) with false by (symmetry; apply Z.ltb_ge; lia).
    split; apply show_nonneg_value; lia.
  - by intros [] [].
  - exact print_line_shows_kind.
  - intros type name x y npcs Hx Hy. unfold addNPC.
    replace (bad_coords x y) with false
      by (symmetry; by apply bad_coords_false).
    unfold show_int.
    replace (x <? 0) with false by (symmetry; apply Z.ltb_ge; lia).
    replace (y <? 0) with false by (symmetry; apply Z.ltb_ge; lia).
    split; [apply show_nonneg_digits; lia|]. split; [apply show_nonneg_digits; lia|].
    cbn [fst]. rewrite print_app. simpl. by rewrite last_snoc.
Qed.

(** A knight at (500, 0) is added to a registry holding a dragon; a knight
    at (501, 0) is refused. *)
Lemma C5_add_witness :
  addNPC KNIGHT "K" 501 0 [at_origin DRAGON "D"] =
    ([at_origin DRAGON "D"], [bad_coords_msg]) /\
  (addNPC KNIGHT "K" 500 0 [at_origin DRAGON "D"] =
     ([at_origin DRAGON "D"] ++ [createNPC KNIGHT "K" 500 0], []) /\
   print (fst (addNPC KNIGHT "K" 500 0 [at_origin DRAGON "D"])) =
     print [at_origin DRAGON "D"] ++
     [type_label KNIGHT +:+ " " +:+ "K" +:+ " at (" +:+ show_int 500 +:+ ", " +:+
      show_int 0 +:+ ")" +:+ endl] /\
   digits_value (show_int 500) 0 = 500 /\ digits_value (show_int 0) 0 = 0) /\
  (string_forallb isdigit (show_int 500) = true /\
   string_forallb isdigit (show_int 0) = true /\
   last (print (fst (addNPC KNIGHT "K" 500 0 [at_origin DRAGON "D"]))) =
     Some (print_line (createNPC KNIGHT "K" 500 0))).
Proof.
  destruct C5_add_checks_the_coordinates as (Hout & Hin & _ & _ & _ & _ & Hlast).
  split; [|split].
  - apply (Hout KNIGHT "K" 501 0 [at_origin DRAGON "D"]). lia.
  - apply (Hin KNIGHT "K" 500 0 [at_origin DRAGON "D"]); lia.
  - apply (Hlast KNIGHT "K" 500 0 [at_origin DRAGON "D"]); lia.
Defined.

(** ** load, and the first item it cannot read *)

Lemma blank_app a b : blank a -> blank b -> blank (a +:+ b).
Proof.
  unfold blank. induction a as [|c a IH]; [done|].
  rewrite append_cons, !string_forallb_cons.
  intros [-> Ha]%andb_prop Hb. simpl. auto.
Qed.

(** Whitespace up to the end of the text ends a token and a number. *)
Lemma blank_stops tail :
  blank tail -> stops (fun c => negb (isspace c)) tail /\ stops isdigit tail.
Proof.
  destruct tail as [|c r]; [done|]. unfold blank. rewrite string_forallb_cons.
  intros [Hc _]%andb_prop. simpl. by destruct (isspace_chars c Hc) as [-> ->].
Qed.

(** An extraction that finds only whitespace up to the end of the text
    fails, whether the previous one reached the end or not. *)
Lemma extract_string_at_end tail e :
  blank tail -> failbit (snd (extract_string (mkIStream tail e false))) = true.
Proof.
  intros Hb. rewrite extract_string_fails. stream_fields.
  rewrite (skipws_all_space _ Hb). apply orb_true_r.
Qed.

Lemma extract_int_at_end tail e :
  blank tail -> failbit (snd (extract_int (mkIStream tail e false))) = true.
Proof.
  intros Hb. unfold extract_int, sentry. stream_fields.
  rewrite (skipws_all_space _ Hb). by destruct e.
Qed.

Lemma int_range_spec v :
  (v <? INT_MIN) || (INT_MAX <? v) = false <-> INT_MIN <= v <= INT_MAX.
Proof. rewrite orb_false_iff, !Z.ltb_ge. lia. Qed.

(** [in >> n] on the decimal text of any integer: a value that does not fit
    an [int] is clamped and sets failbit. *)
Lemma extract_int_show_any ws v rest :
  blank ws -> stops isdigit rest ->
  extract_int (mkIStream (ws +:+ show_int v +:+ rest) false false) =
    (Some (Z.max INT_MIN (Z.min INT_MAX v)),
     mkIStream rest (at_end rest) ((v <? INT_MIN) || (INT_MAX <? v))).
Proof.
  intros Hws Hrest.
  assert (forall u : Z,
    (if u <? INT_MIN then (Some INT_MIN, mkIStream rest (at_end rest) true)
     else if INT_MAX <? u then (Some INT_MAX, mkIStream rest (at_end rest) true)
     else (Some u, mkIStream rest (at_end rest) false)) =
    (Some (Z.max INT_MIN (Z.min INT_MAX u)),
     mkIStream rest (at_end rest) ((u <? INT_MIN) || (INT_MAX <? u)))) as Hclamp.
  { intros u.
    destruct (Z.ltb_spec u INT_MIN) as [H1|H1].
    { replace (Z.max INT_MIN (Z.min INT_MAX u)) with INT_MIN
        by (unfold INT_MIN, INT_MAX in *; lia). done. }
    destruct (Z.ltb_spec INT_MAX u) as [H2|H2].
    { replace (Z.max INT_MIN (Z.min INT_MAX u)) with INT_MAX
        by (unfold INT_MIN, INT_MAX in *; lia). done. }
    replace (Z.max INT_MIN (Z.min INT_MAX u)) with u
      by (unfold INT_MIN, INT_MAX in *; lia). done. }
  unfold extract_int, sentry. stream_fields.
  rewrite (skipws_app ws _ Hws). unfold show_int.
  destruct (v <? 0) eqn:Hneg.
  - apply Z.ltb_lt in Hneg.
    rewrite append_cons, skipws_stop by reflexivity. stream_fields.
    change (take_sign (String "-" (show_nonneg (- v) +:+ rest)))
      with (true, show_nonneg (- v) +:+ rest).
    cbv beta iota.
    rewrite span_app; [|apply show_nonneg_digits; lia|done].
    destruct (show_nonneg_head (- v)) as (c & r & Heq & _); [lia|].
    rewrite Heq at 1. simpl at_end. cbv iota.
    rewrite show_nonneg_value by lia.
    rewrite Z.opp_involutive. apply Hclamp.
  - apply Z.ltb_ge in Hneg.
    destruct (show_nonneg_head v Hneg) as (c & r & Heq & Hc).
    destruct (isdigit_chars c Hc) as (Hsp & Hminus & Hplus).
    rewrite Heq at 1. rewrite append_cons, (skipws_stop c _ Hsp).
    stream_fields. unfold take_sign. rewrite Hminus, Hplus.
    rewrite <- append_cons, <- Heq. cbv beta iota.
    rewrite span_app; [|by apply show_nonneg_digits|done].
    rewrite Heq at 1. simpl at_end. cbv iota.
    rewrite show_nonneg_value by done. apply Hclamp.
Qed.

(** A failure of any of the four extractions makes [loadFromStream] return
    the null pointer. *)
Lemma loadFromStream_none s :
  failbit (snd (loadFromStream s)) = true -> fst (loadFromStream s) = None.
Proof.
  intros Hf. destruct (loadFromStream s) as [[npc|] s'] eqn:Hload; [|done].
  apply loadFromStream_some in Hload as (Hf' & _). simpl in Hf. congruence.
Qed.

Lemma loadFromStream_fail_2 s :
  failbit (snd (extract_string (snd (extract_string s)))) = true ->
  fst (loadFromStream s) = None.
Proof.
  intros Hf. apply loadFromStream_none. rewrite loadFromStream_stream.
  by apply extract_int_sticky, extract_int_sticky.
Qed.

Lemma loadFromStream_fail_3 s :
  failbit (snd (extract_int (snd (extract_string (snd (extract_string s)))))) = true ->
  fst (loadFromStream s) = None.
Proof.
  intros Hf. apply loadFromStream_none. rewrite loadFromStream_stream.
  by apply extract_int_sticky.
Qed.

Lemma loadFromStream_fail_4 s :
  failbit (snd (extract_int (snd (extract_int (snd (extract_string
    (snd (extract_string s)))))))) = true ->
  fst (loadFromStream s) = None.
Proof. intros Hf. apply loadFromStream_none. by rewrite loadFromStream_stream. Qed.

(** The stream after a keyword and a name. *)
Lemma two_tokens_read ws kw ws2 name rest :
  blank ws -> token_name kw -> gap ws2 -> token_name name ->
  stops (fun c => negb (isspace c)) rest ->
  snd (extract_string (snd (extract_string
    (mkIStream (ws +:+ kw +:+ ws2 +:+ name +:+ rest) false false)))) =
    mkIStream rest (at_end rest) false.
Proof.
  intros Hws Hkw Hg2 Hname Hrest.
  destruct (gap_stops ws2 (name +:+ rest) Hg2) as (Hs2 & _ & He2).
  rewrite (extract_string_token ws kw) by done. cbn [snd]. rewrite He2.
  rewrite (extract_string_token ws2 name rest) by first [done|apply Hg2]. done.
Qed.

(** The stream after a keyword, a name and the text of an integer. *)
Lemma three_fields_read ws kw ws2 name ws3 x rest :
  blank ws -> token_name kw -> gap ws2 -> token_name name -> gap ws3 ->
  stops isdigit rest ->
  snd (extract_int (snd (extract_string (snd (extract_string
    (mkIStream (ws +:+ kw +:+ ws2 +:+ name +:+ ws3 +:+ show_int x +:+ rest)
       false false)))))) =
    mkIStream rest (at_end rest) ((x <? INT_MIN) || (INT_MAX <? x)).
Proof.
  intros Hws Hkw Hg2 Hname Hg3 Hrest.
  destruct (gap_stops ws3 (show_int x +:+ rest) Hg3) as (Hs3 & _ & He3).
  rewrite two_tokens_read by done. rewrite He3.
  rewrite (extract_int_show_any ws3 x rest) by first [done|apply Hg3]. done.
Qed.

(** [loadFromStream] on a record of four fields, for any keyword token and
    the decimal text of any two integers: an entity is built exactly when
    the keyword is one of the three and both coordinates are in [0,500]. *)
Lemma loadFromStream_record ws kw ws2 name ws3 x ws4 y rest :
  blank ws -> token_name kw -> gap ws2 -> token_name name -> gap ws3 -> gap ws4 ->
  stops isdigit rest ->
  fst (loadFromStream
         (mkIStream (ws +:+ kw +:+ ws2 +:+ name +:+ ws3 +:+ show_int x +:+ ws4 +:+
                     show_int y +:+ rest) false false)) =
    match type_of_keyword kw with
    | Some type => if bad_coords x y then None else Some (createNPC type name x y)
    | None => None
    end.
Proof.
  intros Hws Hkw Hg2 Hname Hg3 Hg4 Hrest.
  destruct (gap_stops ws4 (show_int y +:+ rest) Hg4) as (_ & Hd4 & He4).
  destruct ((x <? INT_MIN) || (INT_MAX <? x)) eqn:Hfx.
  { assert (bad_coords x y = true) as ->.
    { destruct (bad_coords x y) eqn:Hb; [done|]. apply bad_coords_false in Hb.
      assert ((x <? INT_MIN) || (INT_MAX <? x) = false)
        by (apply int_range_spec; unfold INT_MIN, INT_MAX; lia).
      congruence. }
    rewrite loadFromStream_fail_3; [by destruct (type_of_keyword kw)|].
    rewrite three_fields_read by done. exact Hfx. }
  destruct ((y <? INT_MIN) || (INT_MAX <? y)) eqn:Hfy.
  { assert (bad_coords x y = true) as ->.
    { destruct (bad_coords x y) eqn:Hb; [done|]. apply bad_coords_false in Hb.
      assert ((y <? INT_MIN) || (INT_MAX <? y) = false)
        by (apply int_range_spec; unfold INT_MIN, INT_MAX; lia).
      congruence. }
    rewrite loadFromStream_fail_4; [by destruct (type_of_keyword kw)|].
    rewrite three_fields_read by done. rewrite Hfx, He4.
    rewrite (extract_int_show_any ws4 y rest) by first [done|apply Hg4].
    exact Hfy. }
  apply int_range_spec in Hfx, Hfy.
  destruct (gap_stops ws2 (name +:+ ws3 +:+ show_int x +:+ ws4 +:+ show_int y +:+ rest) Hg2)
    as (Hs2 & _ & He2).
  destruct (gap_stops ws3 (show_int x +:+ ws4 +:+ show_int y +:+ rest) Hg3)
    as (Hs3 & _ & He3).
  unfold loadFromStream.
  rewrite (extract_string_token ws kw) by done. rewrite He2.
  rewrite (extract_string_token ws2 name) by first [done|apply Hg2]. rewrite He3.
  rewrite (extract_int_show ws3 x) by first [done|apply Hg3]. rewrite He4.
  rewrite (extract_int_show ws4 y) by first [done|apply Hg4].
  cbn [failbit fst]. cbv iota.
  destruct (type_of_keyword kw); [|done]. by destruct (bad_coords x y).
Qed.

Lemma gap_space : gap " ".
Proof. by split. Qed.

(** The items [loadFromStream] cannot read: the end of the text; fewer than
    four fields before it; a keyword that is none of the three, whatever
    follows; a coordinate that is not a number; a coordinate outside
    [0,500]. *)
Lemma unreadable_end tail : blank tail -> unreadable tail.
Proof. intros Ht ws Hws. apply loadFromStream_end. by apply blank_app. Qed.

Lemma unreadable_one_token kw tail :
  token_name kw -> blank tail -> unreadable (kw +:+ tail).
Proof.
  intros Hkw Ht ws Hws. destruct (blank_stops tail Ht) as [Hs Hd].
  apply loadFromStream_fail_2.
  rewrite (extract_string_token ws kw tail) by done.
  cbn [snd]. by apply extract_string_at_end.
Qed.

Lemma unreadable_two_tokens kw ws2 name tail :
  token_name kw -> gap ws2 -> token_name name -> blank tail ->
  unreadable (kw +:+ ws2 +:+ name +:+ tail).
Proof.
  intros Hkw Hg2 Hname Ht ws Hws. destruct (blank_stops tail Ht) as [Hs Hd].
  apply loadFromStream_fail_3. rewrite two_tokens_read by done.
  by apply extract_int_at_end.
Qed.

Lemma unreadable_three_fields kw ws2 name ws3 x tail :
  token_name kw -> gap ws2 -> token_name name -> gap ws3 -> blank tail ->
  unreadable (kw +:+ ws2 +:+ name +:+ ws3 +:+ show_int x +:+ tail).
Proof.
  intros Hkw Hg2 Hname Hg3 Ht ws Hws. destruct (blank_stops tail Ht) as [Hs Hd].
  apply loadFromStream_fail_4. rewrite three_fields_read by done.
  destruct ((x <? INT_MIN) || (INT_MAX <? x)).
  - by apply extract_int_sticky.
  - by apply extract_int_at_end.
Qed.

Lemma unreadable_keyword kw rest :
  token_name kw -> type_of_keyword kw = None ->
  stops (fun c => negb (isspace c)) rest -> unreadable (kw +:+ rest).
Proof.
  intros Hkw Hnone Hrest ws Hws. unfold loadFromStream.
  rewrite (extract_string_token ws kw rest) by done.
  destruct (extract_string _) as [name s2].
  destruct (extract_int s2) as [x s3]. destruct (extract_int s3) as [y s4].
  destruct (failbit s4); [done|].
  destruct name, x, y; try done. by rewrite Hnone.
Qed.

Lemma unreadable_x kw ws2 name ws3 c r :
  token_name kw -> gap ws2 -> token_name name -> gap ws3 -> not_numeric c = true ->
  unreadable (kw +:+ ws2 +:+ name +:+ ws3 +:+ String c r).
Proof.
  intros Hkw Hg2 Hname Hg3 Hc ws Hws.
  destruct (gap_stops ws3 (String c r) Hg3) as (Hs3 & _ & He3).
  apply loadFromStream_fail_3. rewrite two_tokens_read by done. rewrite He3.
  rewrite (extract_int_not_numeric ws3 c r) by first [done|apply Hg3]. done.
Qed.

Lemma unreadable_y kw ws2 name ws3 x ws4 c r :
  token_name kw -> gap ws2 -> token_name name -> gap ws3 -> gap ws4 ->
  not_numeric c = true ->
  unreadable (kw +:+ ws2 +:+ name +:+ ws3 +:+ show_int x +:+ ws4 +:+ String c r).
Proof.
  intros Hkw Hg2 Hname Hg3 Hg4 Hc ws Hws.
  destruct (gap_stops ws4 (String c r) Hg4) as (_ & Hd4 & He4).
  apply loadFromStream_fail_4. rewrite three_fields_read by done. rewrite He4.
  destruct ((x <? INT_MIN) || (INT_MAX <? x)).
  - by apply extract_int_sticky.
  - rewrite (extract_int_not_numeric ws4 c r) by first [done|apply Hg4]. done.
Qed.

Lemma unreadable_coords type name x y rest :
  token_name name -> ~ (0 <= x <= 500 /\ 0 <= y <= 500) -> stops isdigit rest ->
  unreadable (line_text type name x y +:+ rest).
Proof.
  intros Hname Hout Hrest ws Hws.
  destruct (type_word_spec type) as (Hkw & Hty & Hword).
  unfold line_text. rewrite Hkw, !append_assoc.
  rewrite (loadFromStream_record ws (type_word type) " " name " " x " " y rest)
    by first [done|apply gap_space].
  rewrite Hty. destruct (bad_coords x y) eqn:Hb; [done|].
  apply bad_coords_false in Hb. contradiction.
Qed.

(** Reading the text [save_text] wrote, followed by an item that cannot be
    read: the loop ends at that item with the entities written before it. *)
Lemma load_loop_stops npcs bad :
  Forall savable npcs -> unreadable bad ->
  forall ws acc fuel,
    blank ws ->
    (String.length (ws +:+ save_text npcs +:+ bad) < fuel)%nat ->
    load_loop fuel (mkIStream (ws +:+ save_text npcs +:+ bad) false false) acc =
      Some (acc ++ purge npcs).
Proof.
  intros Hall Hbad.
  induction Hall as [|n npcs Hn _ IH]; intros ws acc fuel Hws Hfuel.
  - destruct fuel as [|fuel]; [lia|]. simpl save_text. rewrite append_nil_l.
    simpl load_loop. pose proof (Hbad ws Hws) as Hend.
    destruct (loadFromStream _) as [[npc|] s']; [done|]. simpl. by rewrite app_nil_r.
  - simpl save_text in *. simpl purge.
    destruct (isAlive n) eqn:Halive; simpl negb in *; cbv iota in *.
    + destruct fuel as [|fuel]; [lia|].
      rewrite save_line_text, !append_assoc in Hfuel |- *.
      destruct (savable_int n Hn) as [Hx Hy]. destruct Hn as [Hname Hcoords].
      simpl load_loop.
      rewrite loadFromStream_line by done. rewrite Hcoords.
      replace (createNPC (getType n) (getName n) (getX n) (getY n)) with n
        by (destruct n; simpl in *; by subst).
      rewrite IH; [by rewrite <- app_assoc|done|].
      rewrite !length_append in Hfuel. rewrite !length_append.
      assert (1 <= String.length (line_text (getType n) (getName n) (getX n) (getY n)))%nat.
      { unfold line_text. rewrite length_append. destruct (getType n); simpl; lia. }
      lia.
    + by apply IH.
Qed.

Lemma loadFromFile_stops filename fs npcs bad :
  Forall (fun n => savable n /\ isAlive n = true) npcs -> unreadable bad ->
  fs_files fs !! filename = Some (save_text npcs +:+ bad) ->
  loadFromFile filename fs = Some npcs.
Proof.
  intros Hall Hbad Hfile. unfold loadFromFile. rewrite Hfile.
  cbn [open_stream buf].
  rewrite <- (append_nil_l (save_text npcs +:+ bad)) at 2.
  rewrite load_loop_stops; [| |done|done|rewrite append_nil_l; lia].
  - simpl. f_equal. apply purge_all_alive.
    eapply Forall_impl; [exact Hall|]. by intros n [_ ?].
  - eapply Forall_impl; [exact Hall|]. by intros n [? _].
Qed.

Lemma load_two_lines type1 name1 x1 y1 type2 name2 x2 y2 rest :
  token_name name1 -> token_name name2 ->
  0 <= x1 <= 500 -> 0 <= y1 <= 500 ->
  INT_MIN <= x2 <= INT_MAX -> INT_MIN <= y2 <= INT_MAX ->
  ~ (0 <= x2 <= 500 /\ 0 <= y2 <= 500) ->
  loadFromFile "f"
    (file_f (line_text type1 name1 x1 y1 +:+ endl +:+
             line_text type2 name2 x2 y2 +:+ endl +:+ rest)) =
    Some [createNPC type1 name1 x1 y1] /\
  loadFromFile "f"
    (file_f (line_text type2 name2 x2 y2 +:+ endl +:+
             line_text type1 name1 x1 y1 +:+ endl +:+ rest)) = Some [].
Proof.
  intros Hn1 Hn2 Hx1 Hy1 Hx2 Hy2 Hbad.
  assert (bad_coords x1 y1 = false) as Hb1 by (by apply bad_coords_false).
  assert (bad_coords x2 y2 = true) as Hb2.
  { destruct (bad_coords x2 y2) eqn:Hb; [done|].
    apply bad_coords_false in Hb. contradiction. }
  assert (INT_MIN <= x1 <= INT_MAX /\ INT_MIN <= y1 <= INT_MAX) as [Hi1 Hj1]
    by (unfold INT_MIN, INT_MAX; lia).
  split; rewrite loadFromFile_file_f.
  - rewrite <- (append_nil_l (line_text type1 _ _ _ +:+ _)) at 2.
    assert (2 <= S (String.length (line_text type1 name1 x1 y1 +:+ endl +:+
              line_text type2 name2 x2 y2 +:+ endl +:+ rest)))%nat as Hfuel.
    { rewrite length_append. unfold line_text at 1. rewrite !length_append.
      destruct type1; simpl; lia. }
    revert Hfuel. generalize (S (String.length (line_text type1 name1 x1 y1 +:+ endl +:+
              line_text type2 name2 x2 y2 +:+ endl +:+ rest))).
    intros [|[|fuel]] Hfuel; [lia|lia|]. simpl load_loop.
    rewrite (loadFromStream_line EmptyString) by done. rewrite Hb1.
    rewrite (loadFromStream_line endl) by done. by rewrite Hb2.
  - rewrite <- (append_nil_l (line_text type2 _ _ _ +:+ _)) at 2.
    simpl load_loop.
    rewrite (loadFromStream_line EmptyString) by done. by rewrite Hb2.
Qed.

(** C2, amended: [load] reads entities until the first item that cannot be
    read and stops there: the registry is exactly the entities written
    before that item, however many, and whatever follows the item is never
    looked at.  The items that cannot be read are: a record with a
    coordinate outside [0,500] (any integer, also one that does not fit an
    [int]); a keyword that is none of PRINCESS, DRAGON, KNIGHT, whatever
    follows it; a coordinate that is not a number; fewer than four fields
    before the end of the text; the end of the text.  A record of four
    fields is read as an entity exactly when its keyword is one of the
    three and both coordinates are in [0,500].  In particular a
    well-formed line followed by a line with an out-of-range coordinate
    yields exactly the well-formed entity, and with the out-of-range line
    first the registry is empty. *)
Theorem C2_load_stops_at_first_bad_line :
  (forall filename fs npcs bad,
     Forall (fun n => savable n /\ isAlive n = true) npcs -> unreadable bad ->
     fs_files fs !! filename = Some (save_text npcs +:+ bad) ->
     loadFromFile filename fs = Some npcs) /\
  (forall ws kw ws2 name ws3 x ws4 y rest,
     blank ws -> token_name kw -> gap ws2 -> token_name name -> gap ws3 -> gap ws4 ->
     stops isdigit rest ->
     fst (loadFromStream
            (mkIStream (ws +:+ kw +:+ ws2 +:+ name +:+ ws3 +:+ show_int x +:+ ws4 +:+
                        show_int y +:+ rest) false false)) =
       match type_of_keyword kw with
       | Some type => if bad_coords x y then None else Some (createNPC type name x y)
       | None => None
       end) /\
  (forall type name x y rest,
     token_name name -> ~ (0 <= x <= 500 /\ 0 <= y <= 500) -> stops isdigit rest ->
     unreadable (line_text type name x y +:+ rest)) /\
  (forall kw rest,
     token_name kw -> type_of_keyword kw = None ->
     stops (fun c => negb (isspace c)) rest -> unreadable (kw +:+ rest)) /\
  (forall kw ws2 name ws3 c r,
     token_name kw -> gap ws2 -> token_name name -> gap ws3 -> not_numeric c = true ->
     unreadable (kw +:+ ws2 +:+ name +:+ ws3 +:+ String c r)) /\
  (forall kw ws2 name ws3 x ws4 c r,
     token_name kw -> gap ws2 -> token_name name -> gap ws3 -> gap ws4 ->
     not_numeric c = true ->
     unreadable (kw +:+ ws2 +:+ name +:+ ws3 +:+ show_int x +:+ ws4 +:+ String c r)) /\
  (forall kw ws2 name ws3 x tail,
     token_name kw -> gap ws2 -> token_name name -> gap ws3 -> blank tail ->
     unreadable tail /\ unreadable (kw +:+ tail) /\
     unreadable (kw +:+ ws2 +:+ name +:+ tail) /\
     unreadable (kw +:+ ws2 +:+ name +:+ ws3 +:+ show_int x +:+ tail)) /\
  (forall type1 name1 x1 y1 type2 name2 x2 y2 rest,
     token_name name1 -> token_name name2 ->
     0 <= x1 <= 500 -> 0 <= y1 <= 500 ->
     INT_MIN <= x2 <= INT_MAX -> INT_MIN <= y2 <= INT_MAX ->
     ~ (0 <= x2 <= 500 /\ 0 <= y2 <= 500) ->
     loadFromFile "f"
       (file_f (line_text type1 name1 x1 y1 +:+ endl +:+
                line_text type2 name2 x2 y2 +:+ endl +:+ rest)) =
       Some [createNPC type1 name1 x1 y1] /\
     loadFromFile "f"
       (file_f (line_text type2 name2 x2 y2 +:+ endl +:+
                line_text type1 name1 x1 y1 +:+ endl +:+ rest)) = Some []).
Proof.
  split; [exact loadFromFile_stops|].
  split; [exact loadFromStream_record|].
  split; [exact unreadable_coords|].
  split; [exact unreadable_keyword|].
  split; [exact unreadable_x|].
  split; [exact unreadable_y|].
  split; [|exact load_two_lines].
  intros kw ws2 name ws3 x tail Hkw Hg2 Hname Hg3 Ht.
  split; [by apply unreadable_end|].
  split; [by apply unreadable_one_token|].
  split; [by apply unreadable_two_tokens|by apply unreadable_three_fields].
Qed.

(** Three files that start with the saved text of a knight and a dragon:
    the third line has x = 600, or the lower-case keyword of the [add]
    command, or a name and nothing more; in each case both entities are
    loaded and the knight "c" of the last line is not.  Then the two files
    of the scenario. *)
Lemma C2_two_line_files_witness :
  loadFromFile "f"
    (file_f (save_text [createNPC KNIGHT "b" 1 1; createNPC DRAGON "d" 2 2] +:+
             line_text KNIGHT "a" 600 1 +:+ endl +:+
             line_text KNIGHT "c" 3 3 +:+ endl)) =
    Some [createNPC KNIGHT "b" 1 1; createNPC DRAGON "d" 2 2] /\
  loadFromFile "f"
    (file_f (save_text [createNPC KNIGHT "b" 1 1; createNPC DRAGON "d" 2 2] +:+
             "knight" +:+ " a 5 1" +:+ endl +:+
             line_text KNIGHT "c" 3 3 +:+ endl)) =
    Some [createNPC KNIGHT "b" 1 1; createNPC DRAGON "d" 2 2] /\
  loadFromFile "f"
    (file_f (save_text [createNPC KNIGHT "b" 1 1; createNPC DRAGON "d" 2 2] +:+
             "KNIGHT" +:+ " " +:+ "a" +:+ endl)) =
    Some [createNPC KNIGHT "b" 1 1; createNPC DRAGON "d" 2 2] /\
  (loadFromFile "f"
     (file_f (line_text KNIGHT "b" 1 1 +:+ endl +:+
              line_text KNIGHT "a" 600 1 +:+ endl +:+ EmptyString)) =
     Some [createNPC KNIGHT "b" 1 1] /\
   loadFromFile "f"
     (file_f (line_text KNIGHT "a" 600 1 +:+ endl +:+
              line_text KNIGHT "b" 1 1 +:+ endl +:+ EmptyString)) = Some []).
Proof.
  destruct C2_load_stops_at_first_bad_line
    as (Hstops & _ & Hcoords & Hkeyword & _ & _ & Hcount & Hlines).
  assert (Forall (fun n => savable n /\ isAlive n = true)
            [createNPC KNIGHT "b" 1 1; createNPC DRAGON "d" 2 2]) as Hsaved.
  { repeat constructor; discriminate. }
  split; [|split; [|split; [|split]]].
  - apply (Hstops "f"%string _ _
             (line_text KNIGHT "a" 600 1 +:+ endl +:+ line_text KNIGHT "c" 3 3 +:+ endl)
             Hsaved); [|reflexivity].
    apply (Hcoords KNIGHT "a"%string 600 1);
      [split; [discriminate|reflexivity] | lia | reflexivity].
  - apply (Hstops "f"%string _ _
             ("knight" +:+ " a 5 1" +:+ endl +:+ line_text KNIGHT "c" 3 3 +:+ endl)
             Hsaved); [|reflexivity].
    apply (Hkeyword "knight"%string);
      [split; [discriminate|reflexivity] | reflexivity | reflexivity].
  - apply (Hstops "f"%string _ _ ("KNIGHT" +:+ " " +:+ "a" +:+ endl) Hsaved);
      [|reflexivity].
    destruct (Hcount "KNIGHT"%string " "%string "a"%string " "%string 0 endl)
      as (_ & _ & Htwo & _);
      first [split; [discriminate|reflexivity] | reflexivity | exact Htwo].
  - apply (Hlines KNIGHT "b"%string 1 1 KNIGHT "a"%string 600 1 EmptyString);
      try (split; [discriminate|reflexivity]); unfold INT_MIN, INT_MAX; lia.
  - apply (Hlines KNIGHT "b"%string 1 1 KNIGHT "a"%string 600 1 EmptyString);
      try (split; [discriminate|reflexivity]); unfold INT_MIN, INT_MAX; lia.
Defined.

(** ** The loop, and the two ways out of it *)

Lemma suffix_trans (a b c : string) :
  (exists p, a = p +:+ b) -> (exists q, b = q +:+ c) -> exists r, a = r +:+ c.
Proof. intros [p ->] [q ->]. exists (p +:+ q). by rewrite append_assoc. Qed.

Lemma skipws_suffix s : exists ws, blank ws /\ s = ws +:+ skipws s.
Proof.
  induction s as [|c s (ws & Hws & IH)]; [by exists EmptyString|].
  simpl. destruct (isspace c) eqn:Hc; [|by exists EmptyString].
  exists (String c ws). split.
  - unfold blank. by rewrite string_forallb_cons, Hc.
  - rewrite append_cons. by f_equal.
Qed.

Lemma span_eq p s : s = fst (span p s) +:+ snd (span p s).
Proof.
  induction s as [|c s IH]; [done|]. simpl. destruct (p c); [|done].
  destruct (span p s); cbn [fst snd] in *. rewrite append_cons. by f_equal.
Qed.

Lemma span_stops p s : stops p (snd (span p s)).
Proof.
  induction s as [|c s IH]; [done|]. simpl. destruct (p c) eqn:Hc; [|done].
  by destruct (span p s).
Qed.

Lemma take_sign_suffix s : exists p, s = p +:+ snd (take_sign s).
Proof.
  destruct s as [|c r]; [by exists EmptyString|]. simpl.
  destruct (Ascii.eqb c "-"); [by exists (String c EmptyString)|].
  destruct (Ascii.eqb c "+"); [by exists (String c EmptyString)|by exists EmptyString].
Qed.

(** No extraction puts characters back: what is left in the buffer is a
    suffix of what was there. *)
Lemma sentry_suffix s : exists p, buf s = p +:+ buf (snd (sentry s)).
Proof.
  unfold sentry. destruct (good s); [|by exists EmptyString].
  destruct (skipws_suffix (buf s)) as (ws & _ & Heq).
  destruct (skipws (buf s)) as [|c r]; cbn [snd buf].
  - exists (buf s). by rewrite append_nil_r.
  - by exists ws.
Qed.

Lemma extract_string_suffix s : exists p, buf s = p +:+ buf (snd (extract_string s)).
Proof.
  unfold extract_string. pose proof (sentry_suffix s) as Hs.
  destruct (sentry s) as [[] s1]; cbn [snd] in *; [|done].
  pose proof (span_eq (fun c => negb (isspace c)) (buf s1)) as Hspan.
  destruct (span _ (buf s1)) as [t rest]; cbn [fst snd buf] in *.
  eapply suffix_trans; [exact Hs|]. by exists t.
Qed.

Lemma extract_int_suffix s : exists p, buf s = p +:+ buf (snd (extract_int s)).
Proof.
  unfold extract_int. pose proof (sentry_suffix s) as Hs.
  destruct (sentry s) as [[] s1]; cbn [snd] in *; [|done].
  pose proof (take_sign_suffix (buf s1)) as Hsign.
  destruct (take_sign (buf s1)) as [neg body]; cbn [snd] in *.
  pose proof (span_eq isdigit body) as Hspan.
  destruct (span isdigit body) as [ds rest]; cbn [fst snd] in *.
  assert (exists p, buf s = p +:+ rest) as Hrest.
  { eapply suffix_trans; [exact Hs|]. eapply suffix_trans; [exact Hsign|]. by exists ds. }
  repeat (match goal with |- context [if ?b then _ else _] => destruct b end);
    exact Hrest.
Qed.

Lemma extract_double_suffix s : exists p, buf s = p +:+ buf (snd (extract_double s)).
Proof.
  unfold extract_double. pose proof (sentry_suffix s) as Hs.
  destruct (sentry s) as [[] s1]; cbn [snd] in *; [|done].
  pose proof (take_sign_suffix (buf s1)) as Hsign.
  destruct (take_sign (buf s1)) as [neg r0]; cbn [snd] in *.
  pose proof (span_eq isdigit r0) as Hspan.
  destruct (span isdigit r0) as [ip r1]; cbn [fst snd] in *.
  assert (exists p, r1 = p +:+ snd (take_fraction r1)) as Hf.
  { unfold take_fraction. destruct r1 as [|c r]; [by exists EmptyString|].
    destruct (Ascii.eqb c "."); [|by exists EmptyString].
    pose proof (span_eq isdigit r) as H.
    destruct (span isdigit r) as [fp r']; cbn [fst snd] in *.
    exists (String c fp). rewrite append_cons. by f_equal. }
  destruct (take_fraction r1) as [[dot fp] r2]; cbn [snd] in *.
  set (mantissa := negb (at_end ip) || negb (at_end fp)).
  assert (exists p, r2 = p +:+ snd (take_exponent mantissa r2)) as He.
  { unfold take_exponent. destruct r2 as [|c r]; [by exists EmptyString|].
    destruct (mantissa && _); [|by exists EmptyString].
    destruct (take_sign_suffix r) as [p Hp].
    destruct (take_sign r) as [n r']; cbn [snd] in *.
    pose proof (span_eq isdigit r') as H.
    destruct (span isdigit r') as [ep r'']; cbn [fst snd] in *.
    exists (String c (p +:+ ep)). rewrite append_cons, append_assoc. f_equal.
    by rewrite <- H. }
  destruct (take_exponent mantissa r2) as [[[sci eneg] ep] rest]; cbn [snd] in *.
  assert (exists p, buf s = p +:+ rest) as Hrest.
  { eapply suffix_trans; [exact Hs|]. eapply suffix_trans; [exact Hsign|].
    eapply suffix_trans; [by exists ip|]. eapply suffix_trans; [exact Hf|exact He]. }
  destruct (negb mantissa || _); [exact Hrest|].
  destruct (decimal_value _ _ _); exact Hrest.
Qed.

(** A token is stored only by an extraction that succeeds. *)
Lemma extract_string_some s tok s' :
  extract_string s = (Some tok, s') -> failbit s' = false.
Proof.
  unfold extract_string. destruct (sentry s) as [[] s1]; [|discriminate].
  destruct (span _ (buf s1)). by intros [= _ <-].
Qed.

(** The word a successful extraction stored stands in the text, after
    whitespace only, right before what is left unread, and it ends there. *)
Lemma extract_string_word s tok s' :
  extract_string s = (tok, s') -> failbit s' = false ->
  exists ws, blank ws /\ buf s = ws +:+ default EmptyString tok +:+ buf s' /\
    stops (fun c => negb (isspace c)) (buf s').
Proof.
  unfold extract_string, sentry. destruct (good s).
  2: { intros [= <- <-]. discriminate. }
  destruct (skipws_suffix (buf s)) as (ws & Hws & Heq).
  destruct (skipws (buf s)) as [|c r].
  { intros [= <- <-]. discriminate. }
  cbn [buf]. pose proof (span_eq (fun c => negb (isspace c)) (String c r)) as Hspan.
  pose proof (span_stops (fun c => negb (isspace c)) (String c r)) as Hstop.
  destruct (span _ (String c r)) as [t rest]. intros [= <- <-] _.
  exists ws. cbn [fst snd buf default] in *. split; [done|].
  split; [by rewrite Heq, Hspan|done].
Qed.

(** The body of the loop breaks exactly for the command word [exit], which
    does nothing else; no command puts input back. *)
Lemma command_body_leaves g command st :
  exists st',
    command_body g command st = Some (String.eqb command "exit", st') /\
    (exists p, buf (cin st) = p +:+ buf (cin st')) /\
    (String.eqb command "exit" = true -> st' = st).
Proof.
  unfold command_body.
  destruct (String.eqb command "add") eqn:Hadd.
  { apply String.eqb_eq in Hadd as ->. change (String.eqb "add" "exit") with false.
    pose proof (extract_string_suffix (cin st)) as H1.
    destruct (extract_string (cin st)) as [type c1]. cbn [snd] in H1.
    pose proof (extract_string_suffix c1) as H2.
    destruct (extract_string c1) as [name c2]. cbn [snd] in H2.
    pose proof (extract_int_suffix c2) as H3.
    destruct (extract_int c2) as [x c3]. cbn [snd] in H3.
    pose proof (extract_int_suffix c3) as H4.
    destruct (extract_int c3) as [y c4]. cbn [snd] in H4.
    pose proof (suffix_trans _ _ _ (suffix_trans _ _ _ (suffix_trans _ _ _ H1 H2) H3) H4)
      as H.
    destruct (type_of_word _).
    - destruct (addNPC _ _ _ _ _). eexists. split; [done|]. split; [exact H|done].
    - eexists. split; [done|]. split; [exact H|done]. }
  destruct (String.eqb command "print") eqn:Hprint.
  { apply String.eqb_eq in Hprint as ->. change (String.eqb "print" "exit") with false.
    eexists. split; [done|]. split; [by exists EmptyString|done]. }
  destruct (String.eqb command "save") eqn:Hsave.
  { apply String.eqb_eq in Hsave as ->. change (String.eqb "save" "exit") with false.
    pose proof (extract_string_suffix (cin st)) as H1.
    destruct (extract_string (cin st)) as [filename c1]. cbn [snd] in H1.
    eexists. split; [done|]. split; [exact H1|done]. }
  destruct (String.eqb command "load") eqn:Hload.
  { apply String.eqb_eq in Hload as ->. change (String.eqb "load" "exit") with false.
    pose proof (extract_string_suffix (cin st)) as H1.
    destruct (extract_string (cin st)) as [filename c1]. cbn [snd] in H1.
    destruct (loadFromFile_total (default EmptyString filename) (files st)) as [npcs ->].
    eexists. split; [done|]. split; [exact H1|done]. }
  destruct (String.eqb command "battle") eqn:Hbattle.
  { apply String.eqb_eq in Hbattle as ->. change (String.eqb "battle" "exit") with false.
    pose proof (extract_double_suffix (cin st)) as H1.
    destruct (extract_double (cin st)) as [range c1]. cbn [snd] in H1.
    destruct (battle _ _). eexists. split; [done|]. split; [exact H1|done]. }
  destruct (String.eqb command "exit") eqn:Hexit.
  { exists st. split; [done|]. split; [by exists EmptyString|done]. }
  eexists. split; [done|]. split; [by exists EmptyString|done].
Qed.

(** The loop ends within the bound given by the input.  When it is left by
    the [break], the word read last was [exit]: it stands in the input
    right before what is left unread.  Otherwise the read of the command
    word failed. *)
Lemma command_loop_leaves fuel g st :
  (String.length (buf (cin st)) < fuel)%nat ->
  exists how st',
    command_loop fuel g st = Some (how, st') /\
    ((how = ByExit /\ failbit (cin st') = false /\
      stops (fun c => negb (isspace c)) (buf (cin st')) /\
      exists before, buf (cin st) = before +:+ "exit" +:+ buf (cin st')) \/
     (how = ByFailedRead /\ failbit (cin st') = true)).
Proof.
  revert st. induction fuel as [|fuel IH]; intros st Hlen; [lia|].
  simpl. pose proof (extract_string_consumes (cin st)) as Hcons.
  pose proof (extract_string_word (cin st)) as Hword.
  destruct (extract_string (cin st)) as [command c1]. simpl in Hcons.
  specialize (Hword _ _ eq_refl).
  destruct (failbit c1) eqn:Hfail.
  - eexists _, _. split; [done|]. right. by split.
  - destruct (Hword eq_refl) as (ws & Hws & Hbuf & Hstop).
    set (st2 := mkProcess c1 _ _ _).
    destruct (command_body_leaves g (default EmptyString command) st2)
      as (st3 & -> & [p Hp] & Hexit).
    destruct (String.eqb (default EmptyString command) "exit") eqn:Hcmd.
    + apply String.eqb_eq in Hcmd. specialize (Hexit eq_refl). subst st3.
      eexists _, _. split; [done|]. left. subst st2. cbn [cin].
      split; [done|]. split; [done|]. split; [done|].
      exists ws. by rewrite <- Hcmd.
    + subst st2. cbn [cin] in Hp.
      destruct (IH st3) as (how & st' & -> & Hhow).
      { specialize (Hcons eq_refl).
        assert (Hl := f_equal String.length Hp). rewrite length_append in Hl. lia. }
      eexists _, _. split; [done|].
      destruct Hhow as [(-> & Hf & Hs & before & Hb)|Hfr]; [left|by right].
      split; [done|]. split; [done|]. split; [done|].
      exists (ws +:+ default EmptyString command +:+ p +:+ before).
      rewrite Hbuf, Hp, Hb. by rewrite !append_assoc.
Qed.

(** One iteration, by what the read of the command word gives. *)
Lemma command_loop_exit fuel g st c1 :
  extract_string (cin st) = (Some "exit"%string, c1) ->
  command_loop (S fuel) g st =
    Some (ByExit, mkProcess c1 (cout st ++ [prompt]) (files st) (dungeon st)).
Proof.
  intros Hread. pose proof (extract_string_some _ _ _ Hread) as Hok.
  simpl. by rewrite Hread, Hok.
Qed.

Lemma command_loop_next fuel g st command c1 :
  extract_string (cin st) = (Some command, c1) -> command <> "exit"%string ->
  exists st3,
    command_body g command
      (mkProcess c1 (cout st ++ [prompt]) (files st) (dungeon st)) = Some (false, st3) /\
    command_loop (S fuel) g st = command_loop fuel g st3.
Proof.
  intros Hread Hcmd. pose proof (extract_string_some _ _ _ Hread) as Hok.
  apply String.eqb_neq in Hcmd.
  destruct (command_body_leaves g command
              (mkProcess c1 (cout st ++ [prompt]) (files st) (dungeon st)))
    as (st3 & Hbody & _).
  rewrite Hcmd in Hbody. exists st3. split; [done|].
  cbn [command_loop say cin cout files dungeon]. rewrite Hread.
  cbn [from_option id]. by rewrite Hok, Hbody.
Qed.

Lemma command_loop_failed_read fuel g st command c1 :
  extract_string (cin st) = (command, c1) -> failbit c1 = true ->
  command_loop (S fuel) g st =
    Some (ByFailedRead, mkProcess c1 (cout st ++ [prompt]) (files st) (dungeon st)).
Proof. intros Hread Hfail. simpl. by rewrite Hread, Hfail. Qed.

(** C8, amended: for every input [main] returns, with exit code 0.  The
    loop is left in one of two ways.  By the [break]: then the command word
    read last was [exit], which stands in the input right before what is
    left unread, and [std::cin] has not failed.  Or because the read of the
    command word failed: then failbit is set on [std::cin].  The body of
    the loop breaks for the word [exit] and for no other word, and [exit]
    changes nothing.  In one iteration: the word [exit] ends the loop; any
    other word runs its command and the loop goes on; a failed read ends
    the loop.  The read of the command word fails exactly when the stream
    is no longer good or nothing but whitespace is left: at the end of the
    input, and also after a numeric argument ([x], [y] of [add], the range
    of [battle]) that could not be read, since failbit is never cleared. *)
Theorem C8_main_returns_zero :
  (forall g fs input,
     exists how st,
       main g fs input = Some (0, how, st) /\
       ((how = ByExit /\ failbit (cin st) = false /\
         stops (fun c => negb (isspace c)) (buf (cin st)) /\
         exists before, input = before +:+ "exit" +:+ buf (cin st)) \/
        (how = ByFailedRead /\ failbit (cin st) = true))) /\
  (forall s,
     failbit (snd (extract_string s)) = negb (good s) || at_end (skipws (buf s))) /\
  (forall g command st,
     exists st',
       command_body g command st = Some (String.eqb command "exit", st') /\
       (exists p, buf (cin st) = p +:+ buf (cin st')) /\
       (String.eqb command "exit" = true -> st' = st)) /\
  (forall fuel g st c1,
     extract_string (cin st) = (Some "exit"%string, c1) ->
     command_loop (S fuel) g st =
       Some (ByExit, mkProcess c1 (cout st ++ [prompt]) (files st) (dungeon st))) /\
  (forall fuel g st command c1,
     extract_string (cin st) = (Some command, c1) -> command <> "exit"%string ->
     exists st3,
       command_body g command
         (mkProcess c1 (cout st ++ [prompt]) (files st) (dungeon st)) =
         Some (false, st3) /\
       command_loop (S fuel) g st = command_loop fuel g st3) /\
  (forall fuel g st command c1,
     extract_string (cin st) = (command, c1) -> failbit c1 = true ->
     command_loop (S fuel) g st =
       Some (ByFailedRead,
             mkProcess c1 (cout st ++ [prompt]) (files st) (dungeon st))).
Proof.
  split; [|split; [exact extract_string_fails|]].
  - intros g fs input. unfold main.
    destruct (command_loop_leaves (S (String.length input)) g
                (mkProcess (mkIStream input false false) [] (open_log fs) []))
      as (how & st & -> & Hhow); [simpl; lia|].
    by exists how, st.
  - split; [exact command_body_leaves|].
    split; [exact command_loop_exit|].
    split; [exact command_loop_next|exact command_loop_failed_read].
Qed.

(** One iteration on three inputs: "exit print" ends the loop with " print"
    unread; "print exit" prints the empty dungeon and the loop goes on; the
    empty input ends the loop. *)
Lemma C8_one_iteration_witness :
  command_loop 1 no_garbage
    (mkProcess (mkIStream "exit print" false false) [] empty_fs []) =
    Some (ByExit,
          mkProcess (mkIStream " print" false false) ([] ++ [prompt]) empty_fs []) /\
  (exists st3,
     command_body no_garbage "print"
       (mkProcess (mkIStream " exit" false false) ([] ++ [prompt]) empty_fs []) =
       Some (false, st3) /\
     command_loop 2 no_garbage
       (mkProcess (mkIStream "print exit" false false) [] empty_fs []) =
       command_loop 1 no_garbage st3) /\
  command_loop 1 no_garbage
    (mkProcess (mkIStream EmptyString false false) [] empty_fs []) =
    Some (ByFailedRead,
          mkProcess (mkIStream EmptyString true true) ([] ++ [prompt]) empty_fs []).
Proof.
  destruct C8_main_returns_zero as (_ & _ & _ & Hexit & Hnext & Hfailed).
  split; [|split].
  - apply (Hexit 0%nat no_garbage
             (mkProcess (mkIStream "exit print" false false) [] empty_fs [])).
    reflexivity.
  - apply (Hnext 1%nat no_garbage
             (mkProcess (mkIStream "print exit" false false) [] empty_fs [])
             "print"%string (mkIStream " exit" false false));
      [reflexivity|discriminate].
  - apply (Hfailed 0%nat no_garbage
             (mkProcess (mkIStream EmptyString false false) [] empty_fs [])
             None (mkIStream EmptyString true true)); reflexivity.
Defined.
